(** * AutoResearcher: the plan / search / evaluate / synthesize core

    A shallow embedding of the control and state core of the repository
    (app/state.py, app/gemini.py, app/agents/*.py, app/graph.py) together
    with the properties its specification states about it.

    Conventions of the embedding.
    - A Python [str] is the list of its code points ([list N]); slicing
      [s[:n]] is [take n s].  Literals are written with [lit].
    - A Python [float] that is only compared (scores, delays, clock
      readings) is a rational; [pyfloat] adds the non-finite values a JSON
      document or [float(...)] can produce.
    - Everything the program obtains from outside (the Gemini endpoint,
      the Tavily endpoint, the clock, the environment, the JSON codec, the
      regular expression engine and the Unicode tables) is a field of
      [Env]; every theorem holds for all environments.
    - Effects are threaded through [M]: a world (the module global
      [_last_request_time] and a log of effects, newest first) plus a
      result that is a value or a raised exception. *)

From Stdlib Require Import ZArith QArith Lqa String Ascii DecimalString Permutation Sorted.
From stdpp Require Import base gmap list sorting.

Close Scope Q_scope.
Open Scope nat_scope.

(** ** Python strings *)

Abbreviation pystr := (list N).

Definition lit (s : string) : pystr :=
  List.map N_of_ascii (list_ascii_of_string s).

Definition nl : N := 10%N.       (* "\n" *)
Definition tab : N := 9%N.       (* "\t" *)
Definition dq : N := 34%N.       (* the double quote *)
Definition bullet : N := 8226%N. (* U+2022 *)
Definition endash : N := 8211%N. (* U+2013 *)

(** [needle in hay] *)
Fixpoint starts_with (p s : pystr) : bool :=
  match p, s with
  | [], _ => true
  | _ :: _, [] => false
  | a :: p', b :: s' => if N.eqb a b then starts_with p' s' else false
  end.

Fixpoint contains (needle hay : pystr) : bool :=
  starts_with needle hay ||
  match hay with
  | [] => false
  | _ :: hay' => contains needle hay'
  end.

(** [sep.join(parts)] *)
Fixpoint join (sep : pystr) (parts : list pystr) : pystr :=
  match parts with
  | [] => []
  | [p] => p
  | p :: rest => p ++ sep ++ join sep rest
  end.

(** [s.split("\n")]: always at least one piece. *)
Fixpoint split_lines (s : pystr) : list pystr :=
  match s with
  | [] => [[]]
  | c :: s' =>
      if N.eqb c nl then [] :: split_lines s'
      else match split_lines s' with
           | [] => [[c]]
           | l :: ls => (c :: l) :: ls
           end
  end.

(** [s.lstrip(chars)], [s.rstrip(chars)] and [s.strip(chars)] for a
    character class. *)
Fixpoint lstrip_by (p : N -> bool) (s : pystr) : pystr :=
  match s with
  | [] => []
  | c :: s' => if p c then lstrip_by p s' else s
  end.

Definition rstrip_by (p : N -> bool) (s : pystr) : pystr :=
  rev (lstrip_by p (rev s)).

Definition strip_by (p : N -> bool) (s : pystr) : pystr :=
  rstrip_by p (lstrip_by p s).

Definition mem_char (chars : pystr) (c : N) : bool :=
  existsb (N.eqb c) chars.

(** ** Floats *)

Inductive pyfloat :=
| FNaN
| FInf (negative : bool)
| FFin (q : Q).

Definition Qltb (a b : Q) : bool := negb (Qle_bool b a).

(** [a < b] on floats: every comparison with NaN is false. *)
Definition flt (a b : pyfloat) : bool :=
  match a, b with
  | FNaN, _ | _, FNaN => false
  | FInf true, FInf true => false
  | FInf true, _ => true
  | _, FInf true => false
  | FInf false, _ => false
  | _, FInf false => true
  | FFin x, FFin y => Qltb x y
  end.

(** The builtins [min(a, b)] and [max(a, b)]: the first argument is kept
    unless the second is strictly smaller (resp. larger). *)
Definition py_min (a b : pyfloat) : pyfloat := if flt b a then b else a.
Definition py_max (a b : pyfloat) : pyfloat := if flt a b then b else a.

Definition Qmin_py (a b : Q) : Q := if Qltb b a then b else a.

(** ** Exceptions, effects and the world *)

Inductive exn :=
| EnvironmentError (msg : pystr)
| RuntimeError (msg : pystr)
| ClientError (msg : pystr)      (* google.genai.errors.ClientError *)
| IndexError (msg : pystr)
| OtherError (msg : pystr).      (* any other subclass of Exception *)

Inductive node := NPlanner | NSearch | NEvaluate | NSynthesize.

Inductive event :=
| EvTime                       (* a reading of time.time() *)
| EvSleep (d : Q)              (* time.sleep(d) *)
| EvApi (prompt : pystr)       (* client.models.generate_content *)
| EvSearch (query : pystr)     (* TavilyClient.search *)
| EvNode (n : node).           (* the graph runtime enters a node *)

Record world := World {
  last_request_time : Q;       (* gemini._last_request_time *)
  events : list event          (* newest first *)
}.

Definition is_time (e : event) : bool :=
  match e with EvTime => true | _ => false end.
Definition is_api (e : event) : bool :=
  match e with EvApi _ => true | _ => false end.
Definition is_search (e : event) : bool :=
  match e with EvSearch _ => true | _ => false end.
Definition is_node (n : node) (e : event) : bool :=
  match e, n with
  | EvNode NPlanner, NPlanner | EvNode NSearch, NSearch
  | EvNode NEvaluate, NEvaluate | EvNode NSynthesize, NSynthesize => true
  | _, _ => false
  end.

Definition count_ev (p : event -> bool) (h : list event) : nat :=
  length (List.filter p h).
Arguments count_ev : simpl never.

Inductive result (A : Type) :=
| Ok (a : A)
| Raise (e : exn).
Arguments Ok {A} a.
Arguments Raise {A} e.

Definition M (A : Type) : Type := world -> result A * world.

Definition ret {A} (a : A) : M A := fun w => (Ok a, w).
Definition raise {A} (e : exn) : M A := fun w => (Raise e, w).
Definition bind {A B} (c : M A) (k : A -> M B) : M B :=
  fun w => match c w with
           | (Ok a, w') => k a w'
           | (Raise e, w') => (Raise e, w')
           end.
(** [try: c  except Exception as e: h e] *)
Definition try_except {A} (c : M A) (h : exn -> M A) : M A :=
  fun w => match c w with
           | (Ok a, w') => (Ok a, w')
           | (Raise e, w') => h e w'
           end.

Notation "'let*' x := c 'in' k" := (bind c (fun x => k))
  (at level 10, x pattern, c at level 100, k at level 200).
Notation "'run' c 'then' k" := (bind c (fun _ => k))
  (at level 10, c at level 100, k at level 200).

Definition log (e : event) : M unit :=
  fun w => (Ok tt, World (last_request_time w) (e :: events w)).

(** ** Data model (app/state.py and the records the agents build) *)

(** A source record: the dict the Searcher appends, to which the Evaluator
    adds [score] and, when parsing failed, [eval_error]. *)
Record source := Source {
  url : pystr;
  content : pystr;
  source_type : pystr;
  score : option Q;
  eval_error : option pystr
}.

Record ResearchState := State {
  topic : pystr;
  plan : list pystr;
  current_step : nat;
  sources : list source;
  report : option pystr;
  status : option pystr;
  progress : option Q
}.

Definition set_plan (st : ResearchState) (p : list pystr) :=
  State (topic st) p (current_step st) (sources st) (report st) (status st) (progress st).
Definition set_current_step (st : ResearchState) (n : nat) :=
  State (topic st) (plan st) n (sources st) (report st) (status st) (progress st).
Definition set_sources (st : ResearchState) (l : list source) :=
  State (topic st) (plan st) (current_step st) l (report st) (status st) (progress st).
Definition set_report (st : ResearchState) (r : option pystr) :=
  State (topic st) (plan st) (current_step st) (sources st) r (status st) (progress st).
Definition set_status (st : ResearchState) (s : option pystr) :=
  State (topic st) (plan st) (current_step st) (sources st) (report st) s (progress st).

(** One element of a Tavily result list, read with [r.get("url")] and
    [r.get("content")]. *)
Record search_result := SearchResult {
  r_url : option pystr;
  r_content : option pystr
}.

(** What [client.search] returns: a dict, with or without a "results"
    key, or something that is not a dict. *)
Inductive tavily_response :=
| RespDict (results : option (list search_result))
| RespOther.

(** The minimal payload the Evaluator sends for an unscored source. *)
Record score_item := ScoreItem {
  item_id : nat;
  item_url : pystr;
  snippet : pystr
}.

(** A decoded JSON document.  A [JDict] lists the items of the decoded
    dict, so its keys are pairwise distinct. *)
#[warnings="-register-all"]
Inductive json :=
| JNull
| JBool (b : bool)
| JInt (z : Z)
| JFloat (f : pyfloat)
| JStr (s : pystr)
| JList (l : list json)
| JDict (d : list (pystr * json)).

(** One call of [client.models.generate_content]: a reply whose
    [resp.text] is the string [text], or an exception.  The SDK types
    [resp.text] as an optional string and gemini.py returns it unguarded;
    a reply that carries no text ([resp.text] is [None]) is not among the
    outcomes modelled, so every statement below about the text a call
    returns is about a reply that carries one. *)
Inductive api_outcome :=
| ApiText (text : pystr)
| ApiRaise (e : exn).

(** ** The environment *)

Record Env := {
  (* time.time(), by the number of earlier readings *)
  time_time : nat -> Q;
  (* datetime.now().strftime("%B %d, %Y"), by the number of earlier readings *)
  strftime_now : nat -> pystr;
  (* client.models.generate_content, by the number of earlier calls *)
  gemini_api : nat -> pystr -> api_outcome;
  (* os.getenv("TAVILY_API_KEY") *)
  tavily_api_key : option pystr;
  (* TavilyClient.search, by the number of earlier calls *)
  tavily_search : nat -> pystr -> result tavily_response;
  (* str.lower, str.isdigit and str.isspace on code points *)
  str_lower : pystr -> pystr;
  isdigit : N -> bool;
  isspace : N -> bool;
  (* int(str), float(str), float(int); None when the builtin raises *)
  str_to_int : pystr -> option Z;
  str_to_float : pystr -> option pyfloat;
  int_to_float : Z -> option pyfloat;
  (* re.sub with flags=re.IGNORECASE deleting the matches of
     r"^```(?:json)?|```$" *)
  re_sub_fences : pystr -> pystr;
  (* json.loads: the document, or str(e) of the exception raised *)
  json_loads : pystr -> pystr + json;
  (* json.dumps(to_score, ensure_ascii=False) *)
  json_dumps : list score_item -> pystr
}.

(** ** app/gemini.py *)

Section Gemini.
Variable env : Env.

Definition _min_request_interval : Q := 2.

Definition read_clock : M Q :=
  fun w => (Ok (time_time env (count_ev is_time (events w))),
            World (last_request_time w) (EvTime :: events w)).

Definition sleep (d : Q) : M unit := log (EvSleep d).

Definition get_last_request_time : M Q :=
  fun w => (Ok (last_request_time w), w).

Definition set_last_request_time (t : Q) : M unit :=
  fun w => (Ok tt, World t (events w)).

Definition generate_content (prompt : pystr) : M api_outcome :=
  fun w => (Ok (gemini_api env (count_ev is_api (events w)) prompt),
            World (last_request_time w) (EvApi prompt :: events w)).

Definition rate_limit_msg : pystr :=
  lit "Gemini API rate limit exceeded. Please wait a few minutes and try again. Consider upgrading your API key or reducing request frequency.".

Definition no_attempt_msg : pystr :=
  lit "Failed to generate text after retries".

(** ["429" in error_str or "RESOURCE_EXHAUSTED" in error_str
     or "quota" in error_str.lower()] *)
Definition is_rate_limit (error_str : pystr) : bool :=
  contains (lit "429") error_str
  || contains (lit "RESOURCE_EXHAUSTED") error_str
  || contains (lit "quota") (str_lower env error_str).

(** The body of [for attempt in range(max_retries)], with the statement
    after the loop as the empty case. *)
Fixpoint attempt_loop (prompt : pystr) (max_retries : nat)
    (attempts : list nat) (delay : Q) : M pystr :=
  match attempts with
  | [] => raise (RuntimeError no_attempt_msg)
  | attempt :: rest =>
      let* t := read_clock in
      run set_last_request_time t then
      let* r := generate_content prompt in
      match r with
      | ApiText text => ret text
      | ApiRaise (ClientError error_str) =>
          if is_rate_limit error_str then
            if attempt <? max_retries - 1 then
              run sleep delay then
              attempt_loop prompt max_retries rest (Qmin_py (delay * 2)%Q 30%Q)
            else raise (RuntimeError rate_limit_msg)
          else raise (ClientError error_str)
      | ApiRaise e => raise e
      end
  end.

(** The throttle at the head of [generate_text]. *)
Definition throttle : M unit :=
  let* now := read_clock in
  let* last := get_last_request_time in
  let time_since_last := (now - last)%Q in
  if Qltb time_since_last _min_request_interval
  then sleep (_min_request_interval - time_since_last)%Q
  else ret tt.

Definition generate_text_retries (prompt : pystr) (max_retries : nat) : M pystr :=
  run throttle then
  attempt_loop prompt max_retries (seq 0 max_retries) 3%Q.

(** [generate_text(prompt)] with the default [max_retries = 3], as every
    agent calls it. *)
Definition generate_text (prompt : pystr) : M pystr :=
  generate_text_retries prompt 3.

End Gemini.

(** ** app/agents/planner.py *)

Section Planner.
Variable env : Env.

(** [s.strip()] *)
Definition py_strip (s : pystr) : pystr := strip_by (isspace env) s.

(** [str(n)] for a length. *)
Definition str_of_nat (n : nat) : pystr :=
  lit (DecimalString.NilEmpty.string_of_uint (Nat.to_uint n)).

Definition planner_prompt (topic : pystr) : pystr :=
  lit "Create a research plan for: " ++ topic ++ [nl; nl]
  ++ lit "List 3-4 specific search queries. Keep each query under 20 words." ++ [nl; nl]
  ++ lit "Format:" ++ [nl]
  ++ lit "1. [query]" ++ [nl]
  ++ lit "2. [query]" ++ [nl]
  ++ lit "3. [query]" ++ [nl; nl]
  ++ lit "Example for " ++ [dq] ++ lit "AI in healthcare" ++ [dq] ++ lit ":" ++ [nl]
  ++ lit "1. AI medical diagnosis accuracy studies" ++ [nl]
  ++ lit "2. AI healthcare implementation challenges" ++ [nl]
  ++ lit "3. Future AI healthcare applications".

(** [line[0].isdigit() or line.startswith('-') or line.startswith('•')]
    on a non-empty line. *)
Definition is_list_line (line : pystr) : bool :=
  match line with
  | [] => false
  | c :: _ =>
      isdigit env c || starts_with (lit "-") line || starts_with [bullet] line
  end.

(** The characters of [lstrip("0123456789.-•) \t")]. *)
Definition numbering_chars : pystr :=
  lit "0123456789.-" ++ [bullet] ++ lit ") " ++ [tab].

(** The first parsing loop: numbered or bulleted lines. *)
Fixpoint numbered_steps (lines : list pystr) : list pystr :=
  match lines with
  | [] => []
  | line :: rest =>
      let line := py_strip line in
      if is_list_line line then
        let clean_line := lstrip_by (mem_char numbering_chars) line in
        match clean_line with
        | [] => numbered_steps rest
        | _ :: _ => clean_line :: numbered_steps rest
        end
      else numbered_steps rest
  end.

(** [[s.strip() for s in output.split("\n") if s.strip()]] *)
Fixpoint nonblank_lines (lines : list pystr) : list pystr :=
  match lines with
  | [] => []
  | s :: rest =>
      match py_strip s with
      | [] => nonblank_lines rest
      | _ :: _ => py_strip s :: nonblank_lines rest
      end
  end.

Definition default_steps (topic : pystr) : list pystr :=
  [ lit "Find recent articles about " ++ topic;
    lit "Search for expert opinions on " ++ topic;
    lit "Look for case studies related to " ++ topic ].

Definition fallback_plan (topic : pystr) : list pystr :=
  [ lit "Research overview of " ++ topic;
    lit "Find key developments in " ++ topic;
    lit "Explore challenges in " ++ topic ].

(** The parsing part of the [try] block. *)
Definition parse_plan (topic output : pystr) : list pystr :=
  let steps := numbered_steps (split_lines output) in
  let steps := match steps with
               | [] => nonblank_lines (split_lines output)
               | _ :: _ => steps
               end in
  let steps := take 4 steps in
  match steps with
  | [] => default_steps topic
  | _ :: _ => steps
  end.

Definition planned (st : ResearchState) (steps : list pystr) (msg : pystr)
  : ResearchState :=
  set_status (set_current_step (set_plan st steps) 0) (Some msg).

Definition planner_agent (st : ResearchState) : M ResearchState :=
  try_except
    (let* output := generate_text env (planner_prompt (topic st)) in
     let steps := parse_plan (topic st) output in
     ret (planned st steps
            (lit "Created plan with " ++ str_of_nat (length steps) ++ lit " steps")))
    (fun _ =>
       ret (planned st (fallback_plan (topic st))
              (lit "Using fallback plan due to error"))).

End Planner.

(** ** app/agents/searcher.py *)

Section Searcher.
Variable env : Env.

(** [not s] for an optional string. *)
Definition falsy (o : option pystr) : bool :=
  match o with
  | None | Some [] => true
  | Some (_ :: _) => false
  end.

Definition client_search (query : pystr) : M tavily_response :=
  fun w =>
    (tavily_search env (count_ev is_search (events w)) query,
     World (last_request_time w) (EvSearch query :: events w)).

(** [set(s.get("url") for s in state.sources)] *)
Definition seen_urls (srcs : list source) : gset pystr :=
  list_to_set (url <$> srcs).

(** The deduplicating [for r in results] loop; [srcs] is [state.sources],
    appended to in place. *)
Fixpoint add_results (results : list search_result) (seen : gset pystr)
    (srcs : list source) : list source :=
  match results with
  | [] => srcs
  | r :: rest =>
      let content := default [] (r_content r) in
      match r_url r with
      | None | Some [] => add_results rest seen srcs
      | Some u =>
          if decide (u ∈ seen) then add_results rest seen srcs
          else add_results rest ({[u]} ∪ seen)
                 (srcs ++ [Source u (take 4000 content) (lit "tavily") None None])
      end
  end.

Definition results_of (resp : tavily_response) : list search_result :=
  match resp with
  | RespDict (Some results) => results
  | RespDict None | RespOther => []
  end.

Definition search_agent (st : ResearchState) : M ResearchState :=
  if length (plan st) <=? current_step st then ret st
  else if falsy (tavily_api_key env)
  then raise (EnvironmentError (lit "Missing TAVILY_API_KEY"))
  else
    match plan st !! current_step st with
    | None => raise (IndexError (lit "list index out of range"))
    | Some query =>
        let* resp := client_search query in
        let srcs := add_results (results_of resp) (seen_urls (sources st))
                      (sources st) in
        ret (set_current_step (set_sources st srcs) (current_step st + 1))
    end.

End Searcher.

(** ** app/agents/evaluator.py *)

Section Evaluator.
Variable env : Env.

Definition lift {A} (r : result A) : M A := fun w => (r, w).

(** The partition loop: already-scored sources are kept, the others are
    queued for scoring under their index in [state.sources]. *)
Fixpoint split_scored (i : nat) (srcs : list source)
  : list source * list score_item :=
  match srcs with
  | [] => ([], [])
  | src :: rest =>
      let (kept, to_score) := split_scored (S i) rest in
      match score src with
      | Some _ => (src :: kept, to_score)
      | None =>
          (kept, ScoreItem i (url src) (take 600 (content src)) :: to_score)
      end
  end.

Definition evaluator_prompt (to_score : list score_item) : pystr :=
  [nl]
  ++ lit "You are scoring source credibility for a research assistant." ++ [nl]
  ++ lit "For each item, return a JSON array of objects: [{" ++ [dq] ++ lit "id"
  ++ [dq] ++ lit ": <int>, " ++ [dq] ++ lit "score" ++ [dq]
  ++ lit ": <float 0..1>}, ...]" ++ [nl]
  ++ lit "Return ONLY valid JSON. No markdown, no explanation." ++ [nl; nl]
  ++ lit "Scoring guide:" ++ [nl]
  ++ lit "- 0.9" ++ [endash]
  ++ lit "1.0: peer-reviewed journals, gov/edu, major medical orgs, reputable news with citations"
  ++ [nl]
  ++ lit "- 0.6" ++ [endash]
  ++ lit "0.8: generally credible outlets, clear authorship, references" ++ [nl]
  ++ lit "- 0.3" ++ [endash]
  ++ lit "0.5: blogs, unclear sourcing, promotional content" ++ [nl]
  ++ lit "- 0.0" ++ [endash]
  ++ lit "0.2: spam, unverifiable, sensational, no sources" ++ [nl; nl]
  ++ lit "Items:" ++ [nl]
  ++ json_dumps env to_score ++ [nl].

(** The [try] block: strip, remove code fences, strip, decode. *)
Definition parse_scores (raw : pystr) : pystr + json :=
  let raw_clean := py_strip env (re_sub_fences env (py_strip env raw)) in
  json_loads env raw_clean.

(** [obj[key]]; None when it raises (not a dict, or no such key). *)
Fixpoint dict_get (d : list (pystr * json)) (key : pystr) : option json :=
  match d with
  | [] => None
  | (k, v) :: d' => if decide (k = key) then Some v else dict_get d' key
  end.

Definition subscript (obj : json) (key : pystr) : option json :=
  match obj with
  | JDict d => dict_get d key
  | _ => None
  end.

(** [int(v)]; None when it raises. *)
Definition py_int (v : json) : option Z :=
  match v with
  | JInt z => Some z
  | JBool b => Some (if b then 1%Z else 0%Z)
  | JFloat (FFin q) => Some (Z.quot (Qnum q) (Zpos (Qden q)))
  | JFloat _ => None
  | JStr s => str_to_int env s
  | JNull | JList _ | JDict _ => None
  end.

(** [float(v)]; None when it raises. *)
Definition py_float (v : json) : option pyfloat :=
  match v with
  | JInt z => int_to_float env z
  | JBool b => Some (FFin (if b then 1%Q else 0%Q))
  | JFloat f => Some f
  | JStr s => str_to_float env s
  | JNull | JList _ | JDict _ => None
  end.

(** The value of [max(0.0, min(1.0, x))], which is always finite (see
    [clamp_is_max_min]). *)
Definition clamp (x : pyfloat) : Q :=
  match py_max (FFin 0%Q) (py_min (FFin 1%Q) x) with
  | FFin q => q
  | FNaN | FInf _ => 0%Q
  end.

(** One iteration of the score-map loop: the right-hand side is evaluated
    before the key; an exception in either skips the entry. *)
Definition score_entry (obj : json) : option (Z * Q) :=
  match subscript obj (lit "score") with
  | None => None
  | Some sv =>
      match py_float sv with
      | None => None
      | Some x =>
          match subscript obj (lit "id") with
          | None => None
          | Some iv =>
              match py_int iv with
              | None => None
              | Some k => Some (k, clamp x)
              end
          end
      end
  end.

Fixpoint build_score_map (objs : list json) (score_map : gmap Z Q)
  : gmap Z Q :=
  match objs with
  | [] => score_map
  | obj :: rest =>
      build_score_map rest
        match score_entry obj with
        | Some (k, v) => <[k := v]> score_map
        | None => score_map
        end
  end.

(** [scores if isinstance(scores, list) else []] *)
Definition as_list (scores : json) : list json :=
  match scores with
  | JList l => l
  | _ => []
  end.

Definition default_score : Q := 3 # 10.
Definition threshold : Q := 6 # 10.

(** The two bodies of [for item in to_score]. *)
Definition mark_failed (msg : pystr) (src : source) : source :=
  Source (url src) (content src) (source_type src) (Some default_score)
    (Some (lit "JSON parse failed: " ++ msg)).

Definition mark_scored (score_map : gmap Z Q) (id : nat) (src : source)
  : source :=
  Source (url src) (content src) (source_type src)
    (Some (default default_score (score_map !! Z.of_nat id)))
    (eval_error src).

(** [for item in to_score: src = state.sources[item["id"]]; body;
     kept.append(src)].  The body updates the dict in place; every index
    is visited once and the Searcher appends a fresh dict per record, so
    reading [all], the list as it was on entry, yields the same records. *)
Fixpoint attach (body : nat -> source -> source) (all : list source)
    (to_score : list score_item) (kept : list source) : result (list source) :=
  match to_score with
  | [] => Ok kept
  | item :: rest =>
      match all !! item_id item with
      | None => Raise (IndexError (lit "list index out of range"))
      | Some src => attach body all rest (kept ++ [body (item_id item) src])
      end
  end.

(** [s.get("score", 0)] *)
Definition score_or_zero (s : source) : Q := default 0%Q (score s).

Definition credible (s : source) : bool := Qle_bool threshold (score_or_zero s).

(** [sorted(kept, key=..., reverse=True)]: a stable sort, largest score
    first, equal scores in the order they have in [kept]. *)
Fixpoint insert_desc (x : source) (l : list source) : list source :=
  match l with
  | [] => [x]
  | y :: l' =>
      if Qltb (score_or_zero x) (score_or_zero y)
      then y :: insert_desc x l'
      else x :: y :: l'
  end.

Fixpoint sorted_desc (l : list source) : list source :=
  match l with
  | [] => []
  | x :: l' => insert_desc x (sorted_desc l')
  end.

(** The last two statements before [return state]. *)
Definition filter_or_top3 (kept : list source) : list source :=
  match List.filter credible kept with
  | [] => take 3 (sorted_desc kept)
  | filtered => filtered
  end.

Definition evaluator_agent (st : ResearchState) : M ResearchState :=
  match sources st with
  | [] => ret st
  | _ :: _ =>
      let (kept, to_score) := split_scored 0 (sources st) in
      match to_score with
      | [] => ret (set_sources st kept)
      | _ :: _ =>
          let* raw := generate_text env (evaluator_prompt to_score) in
          match parse_scores raw with
          | inl e =>
              let* kept := lift (attach (fun _ => mark_failed e) (sources st)
                                   to_score kept) in
              ret (set_sources st kept)
          | inr scores =>
              let score_map := build_score_map (as_list scores) ∅ in
              let* kept := lift (attach (mark_scored score_map) (sources st)
                                   to_score kept) in
              ret (set_sources st (filter_or_top3 kept))
          end
      end
  end.

End Evaluator.

(** ** app/agents/synthesizer.py *)

(** The Synthesizer accepts a dict as well as a [ResearchState].  A dict
    is observed through the three keys it reads; [None] stands for a key
    that is absent (for sources and report also: that holds [None]). *)
Record dict_state := DictState {
  d_sources : option (list source);
  d_topic : option pystr;
  d_report : option pystr
}.

Inductive any_state :=
| AsDict (d : dict_state)
| AsObject (st : ResearchState).

Section Synthesizer.
Variable env : Env.

Definition no_sources_msg : pystr :=
  lit "No sources were retrieved. Check Tavily key/config or try a different query.".

Definition state_sources (s : any_state) : list source :=
  match s with
  | AsDict d => default [] (d_sources d)
  | AsObject st => sources st
  end.

Definition state_topic (s : any_state) : pystr :=
  match s with
  | AsDict d => default [] (d_topic d)
  | AsObject st => topic st
  end.

Definition state_report (s : any_state) : option pystr :=
  match s with
  | AsDict d => d_report d
  | AsObject st => report st
  end.

(** What the function returns after producing [text]: a dict holding only
    the report, or the mutated object. *)
Definition with_report (s : any_state) (text : pystr) : any_state :=
  match s with
  | AsDict _ => AsDict (DictState None None (Some text))
  | AsObject st => AsObject (set_report st (Some text))
  end.

Definition note_of (s : source) : pystr :=
  lit "Source (" ++ url s ++ lit "): " ++ take 900 (content s).

Definition build_notes (srcs : list source) : pystr :=
  join [nl; nl] (note_of <$> srcs).

Definition today : M pystr :=
  fun w => (Ok (strftime_now env (count_ev is_time (events w))),
            World (last_request_time w) (EvTime :: events w)).

Definition synthesizer_prompt (topic today notes : pystr) : pystr :=
  [nl]
  ++ lit "Write a structured research report on:" ++ [nl; nl]
  ++ topic ++ [nl; nl]
  ++ lit "Date: " ++ today ++ [nl]
  ++ lit "Do NOT include placeholder author names." ++ [nl; nl]
  ++ lit "Include these headings exactly:" ++ [nl]
  ++ lit "# Research Report: " ++ topic ++ [nl]
  ++ lit "## Date" ++ [nl]
  ++ lit "## Overview" ++ [nl]
  ++ lit "## Key Findings" ++ [nl]
  ++ lit "## Conflicting Viewpoints" ++ [nl]
  ++ lit "## Conclusion" ++ [nl]
  ++ lit "## References" ++ [nl; nl]
  ++ lit "Rules:" ++ [nl]
  ++ lit "- Use concise bullets under Key Findings." ++ [nl]
  ++ lit "- References must be a bullet list of clickable URLs (prefer the exact source URLs from notes)."
  ++ [nl]
  ++ lit "- Do not invent citations that aren't in the notes." ++ [nl; nl]
  ++ lit "Research Notes:" ++ [nl]
  ++ notes ++ [nl].

Definition synthesizer_agent (s : any_state) : M any_state :=
  if negb (falsy (state_report s)) then ret s
  else
    match state_sources s with
    | [] => ret (with_report s no_sources_msg)
    | _ :: _ =>
        let notes := build_notes (state_sources s) in
        let* today := today in
        let prompt := synthesizer_prompt (state_topic s) today notes in
        let* report_text := generate_text env prompt in
        ret (with_report s report_text)
    end.

End Synthesizer.

(** ** app/graph.py *)

Section Graph.
Variable env : Env.

Definition should_continue (st : ResearchState) : node :=
  if current_step st <? length (plan st) then NSearch else NSynthesize.

(** A node that returns a dict updates the keys the dict holds. *)
Definition merge_update (st : ResearchState) (r : any_state) : ResearchState :=
  match r with
  | AsObject st' => st'
  | AsDict d =>
      match d_report d with
      | Some text => set_report st (Some text)
      | None => st
      end
  end.

Definition run_node (n : node) (st : ResearchState) : M ResearchState :=
  run log (EvNode n) then
  match n with
  | NPlanner => planner_agent env st
  | NSearch => search_agent env st
  | NEvaluate => evaluator_agent env st
  | NSynthesize =>
      let* r := synthesizer_agent env (AsObject st) in
      ret (merge_update st r)
  end.

(** The edges: planner -> search -> evaluate, the conditional edge after
    evaluate, and no edge out of synthesize. *)
Definition next_node (n : node) (st : ResearchState) : option node :=
  match n with
  | NPlanner => Some NSearch
  | NSearch => Some NEvaluate
  | NEvaluate => Some (should_continue st)
  | NSynthesize => None
  end.

(** Running the compiled graph from node [n] for at most [limit] node
    executions; [None] is the runtime giving up at the recursion limit. *)
Fixpoint run_graph (limit : nat) (n : node) (st : ResearchState)
  : M (option ResearchState) :=
  match limit with
  | 0 => ret None
  | S limit' =>
      let* st' := run_node n st in
      match next_node n st' with
      | None => ret (Some st')
      | Some n' => run_graph limit' n' st'
      end
  end.

(** [research_graph.invoke(state, {"recursion_limit": 30})] in main.py. *)
Definition research_graph_invoke (st : ResearchState)
  : M (option ResearchState) :=
  run_graph 30 NPlanner st.

End Graph.

(** ** Vocabulary of the statements *)

(** The sleeps recorded in a log, newest first. *)
Fixpoint sleeps_of (h : list event) : list Q :=
  match h with
  | [] => []
  | EvSleep d :: h' => d :: sleeps_of h'
  | _ :: h' => sleeps_of h'
  end.

(** Delays that start at [d] and double up to the cap of 30. *)
Fixpoint backoff_delays (d : Q) (count : nat) : list Q :=
  match count with
  | 0 => []
  | S count' => d :: backoff_delays (Qmin_py (d * 2)%Q 30%Q) count'
  end.

(** The outcome of an API call is a rate-limit-class client error. *)
Definition rate_limited (env : Env) (o : api_outcome) : bool :=
  match o with
  | ApiRaise (ClientError error_str) => is_rate_limit env error_str
  | _ => false
  end.

(** A concrete environment for examples: the clock stands at 0, the
    Gemini endpoint answers every call with [reply], Tavily answers every
    query with [hits], and the codecs accept nothing. *)
Definition ascii_digit (c : N) : bool := (48 <=? c)%N && (c <=? 57)%N.
Definition ascii_space (c : N) : bool :=
  ((9 <=? c)%N && (c <=? 13)%N) || (c =? 32)%N.

Definition fixed_env (reply : api_outcome) (hits : list search_result)
    (decoded : pystr + json) : Env :=
  {| time_time := fun _ => 0%Q;
     strftime_now := fun _ => lit "January 01, 2025";
     gemini_api := fun _ _ => reply;
     tavily_api_key := Some (lit "tvly-key");
     tavily_search := fun _ _ => Ok (RespDict (Some hits));
     str_lower := fun s => s;
     isdigit := ascii_digit;
     isspace := ascii_space;
     str_to_int := fun _ => None;
     str_to_float := fun _ => None;
     int_to_float := fun z => Some (FFin (inject_Z z));
     re_sub_fences := fun s => s;
     json_loads := fun _ => decoded;
     json_dumps := fun _ => lit "[]" |}.

Definition quota_error : api_outcome :=
  ApiRaise (ClientError (lit "429 RESOURCE_EXHAUSTED")).
Definition server_error : api_outcome :=
  ApiRaise (ClientError (lit "400 INVALID_ARGUMENT")).

Definition world0 : world := World 0%Q [].

Definition fresh_source (u c : string) : source :=
  Source (lit u) (lit c) (lit "tavily") None None.

Definition scored_source (u : string) (q : Q) : source :=
  Source (lit u) (lit "text") (lit "tavily") (Some q) None.

Definition hit (u c : string) : search_result :=
  SearchResult (Some (lit u)) (Some (lit c)).

(** Results that repeat a known url, repeat each other, and lack a url. *)
Definition overlapping_hits : list search_result :=
  [ hit "http://a" "again"; hit "http://b" "new"; hit "http://b" "twice";
    SearchResult None (Some (lit "no url")); SearchResult (Some []) None;
    hit "http://c" "new" ].

Definition searching_state : ResearchState :=
  State (lit "t") [lit "q1"; lit "q2"] 0 [fresh_source "http://a" "old"]
    None None None.

Definition state0 (topic : pystr) : ResearchState :=
  State topic [] 0 [] None None (Some 0%Q).

Definition plan_of_result (rw : result ResearchState * world)
  : option (list pystr) :=
  match rw.1 with
  | Ok st => Some (plan st)
  | Raise _ => None
  end.

(** Sources with equal scores, and the order of a descending list. *)
Definition same_score (q : Q) (s : source) : bool :=
  Qeq_bool (score_or_zero s) q.

Definition score_ge (a b : source) : Prop :=
  (score_or_zero b <= score_or_zero a)%Q.

(** The Evaluator's [kept] list described directly: the sources that
    already carry a score, in order, followed by the others, in order,
    each updated by the loop body under its index. *)
Definition has_score (s : source) : bool :=
  match score s with Some _ => true | None => false end.

Definition already_scored (srcs : list source) : list source :=
  List.filter has_score srcs.

Fixpoint newly_scored (body : nat -> source -> source) (i : nat)
    (srcs : list source) : list source :=
  match srcs with
  | [] => []
  | s :: rest =>
      if has_score s then newly_scored body (S i) rest
      else body i s :: newly_scored body (S i) rest
  end.

Definition kept_after (body : nat -> source -> source) (srcs : list source)
  : list source :=
  already_scored srcs ++ newly_scored body 0 srcs.

(** The two coercions of one array entry, and the value the score map
    ends up holding for a key: that of the last entry that coerces to
    it. *)
Definition entry_score (env : Env) (obj : json) : option pyfloat :=
  match subscript obj (lit "score") with
  | Some sv => py_float env sv
  | None => None
  end.

Definition entry_id (env : Env) (obj : json) : option Z :=
  match subscript obj (lit "id") with
  | Some iv => py_int env iv
  | None => None
  end.

Fixpoint last_entry (env : Env) (objs : list json) (k : Z) : option Q :=
  match objs with
  | [] => None
  | obj :: rest =>
      match last_entry env rest k with
      | Some v => Some v
      | None =>
          match entry_score env obj, entry_id env obj with
          | Some x, Some k' => if decide (k' = k) then Some (clamp x) else None
          | _, _ => None
          end
      end
  end.

(** Concrete inputs for the Evaluator. *)
Definition entry (id sc : json) : json :=
  JDict [(lit "id", id); (lit "score", sc)].

Definition num (q : Q) : json := JFloat (FFin q).

(** Every score below 0.6; the last two entries do not coerce. *)
Definition low_scores : list json :=
  [ entry (JInt 0) (num (5 # 10)); entry (JInt 1) (num (2 # 10));
    entry (JInt 3) (num (5 # 10));
    entry (JStr (lit "x")) (num (9 # 10)); entry (JInt 2) (JStr (lit "high")) ].

(** Scores outside [0, 1], a non-finite one, and entries that fail. *)
Definition wild_scores : list json :=
  [ entry (JInt 0) (num (17 # 10)); entry (num (3 # 2)) (JInt (-3));
    entry (JInt 2) JNull; JStr (lit "id"); entry JNull (num (1 # 2));
    entry (JBool true) (JFloat FNaN) ].

Definition four_fresh : ResearchState :=
  State (lit "t") [lit "q"] 1
    [ fresh_source "http://a" "A"; fresh_source "http://b" "B";
      fresh_source "http://c" "C"; fresh_source "http://d" "D" ]
    None None None.

Definition one_scored_one_fresh : ResearchState :=
  State (lit "t") [lit "q"] 1
    [ scored_source "http://a" (9 # 10); fresh_source "http://b" "B" ]
    None None None.

Definition scoring_env (objs : list json) : Env :=
  fixed_env (ApiText (lit "[...]")) [] (inr (JList objs)).

Definition garbled_env : Env :=
  fixed_env (ApiText (lit "Sure! Here you go")) [] (inl (lit "Expecting value")).

Definition with_score (s : source) (q : Q) (err : option pystr) : source :=
  Source (url s) (content s) (source_type s) (Some q) err.

Definition sources_of_result (rw : result ResearchState * world)
  : option (list source) :=
  match rw.1 with
  | Ok st => Some (sources st)
  | Raise _ => None
  end.

(** The same state with the report cleared. *)
Definition without_report (s : any_state) : any_state :=
  match s with
  | AsDict d => AsDict (DictState (d_sources d) (d_topic d) None)
  | AsObject st => AsObject (set_report st None)
  end.

Definition reported_state (text : pystr) (srcs : list source) : ResearchState :=
  State (lit "t") [lit "q"] 1 srcs (Some text) None None.

(** A computation that enters no graph node: the number of entries of
    each node recorded in the log is unchanged. *)
Definition quiet {A} (c : M A) : Prop :=
  forall n w,
    count_ev (is_node n) (events (c w).2) = count_ev (is_node n) (events w).

(** A state whose plan is exhausted. *)
Definition finished_state : ResearchState :=
  State (lit "t") [] 0 [] None None None.

(** The world after one API attempt, after a sleep, and after the runtime
    has entered a node. *)
Definition attempted (env : Env) (prompt : pystr) (w : world) : world :=
  World (time_time env (count_ev is_time (events w)))
        (EvApi prompt :: EvTime :: events w).

Definition slept (d : Q) (w : world) : world :=
  World (last_request_time w) (EvSleep d :: events w).

Definition entered (n : node) (w : world) : world :=
  World (last_request_time w) (EvNode n :: events w).

(** ** app/gemini.py, continued *)

Section GeminiFallback.
Variable env : Env.

Definition rate_limit_reached_msg : pystr :=
  lit "Rate limit reached. Please try again in a few minutes.".

(** ["rate limit" in str(e).lower()] *)
Definition mentions_rate_limit (error_msg : pystr) : bool :=
  contains (lit "rate limit") (str_lower env error_msg).

(** [generate_text_with_fallback(prompt, fallback_response)].  Only a
    [RuntimeError] is caught; [RuntimeError msg] stands for any instance
    of that class whose [str(e)] is [msg]. *)
Definition generate_text_with_fallback (prompt : pystr)
    (fallback_response : option pystr) : M pystr :=
  try_except (generate_text env prompt)
    (fun e =>
       match e with
       | RuntimeError msg =>
           if mentions_rate_limit msg then
             if falsy fallback_response then ret rate_limit_reached_msg
             else ret (default [] fallback_response)
           else raise e
       | _ => raise e
       end).

End GeminiFallback.

(** ** app/main.py *)

(** The [detail] of an [HTTPException]: a string, or a dict with the keys
    error and message and, for the rate-limit answer, retry_after and
    tip. *)
Inductive http_detail :=
| DetailText (msg : pystr)
| DetailDict (error message : pystr) (retry_after : option nat)
    (tip : option pystr).

(** What the [/research] endpoint produces: the success payload (with
    success = True), or a raised [HTTPException]. *)
Inductive http_response :=
| Success (report : pystr) (srcs : list source) (topic : pystr)
| HTTPError (status_code : nat) (detail : http_detail).

Section Main.
Variable env : Env.
(** [URL_RE.sub(repl, text)]: the text with every match [m] of [URL_RE]
    replaced by [repl] applied to [m.group(0)]. *)
Variable url_re_sub : (pystr -> pystr) -> pystr -> pystr.
(** [str(e)] of the error the graph runtime raises at the recursion limit,
    a [RuntimeError] by inheritance. *)
Variable recursion_error_msg : pystr.

(** The inner function [repl] of [linkify], on the matched text. *)
Definition repl (raw : pystr) : pystr :=
  let url := if starts_with (lit "http") raw then raw
             else lit "https://" ++ raw in
  lit "[" ++ raw ++ lit "](" ++ url ++ lit ")".

Definition linkify (text : pystr) : pystr :=
  match text with
  | [] => text
  | _ :: _ => url_re_sub repl text
  end.

(** [ResearchState(topic=topic)] with the defaults of app/state.py. *)
Definition initial_state (topic : pystr) : ResearchState :=
  State topic [] 0 [] None None (Some 0%Q).

(** The [except RuntimeError] handler of [research]. *)
Definition runtime_error_response (error_msg : pystr) : http_response :=
  if mentions_rate_limit env error_msg then
    HTTPError 429
      (DetailDict (lit "Rate limit exceeded")
         (lit "The AI service is rate limited. Please wait 1-2 minutes and try again.")
         (Some 60) (Some (lit "Try a simpler topic or wait between requests")))
  else if contains (lit "TAVILY_API_KEY") error_msg then
    HTTPError 500
      (DetailDict (lit "Configuration error")
         (lit "Search API key not configured. Please contact administrator.")
         None None)
  else
    HTTPError 500 (DetailDict (lit "Research failed") error_msg None None).

(** The [except Exception] handler. *)
Definition unexpected_error_response : http_response :=
  HTTPError 500
    (DetailDict (lit "Internal server error")
       (lit "An unexpected error occurred. Please try again.") None None).

(** [research(topic)]: the two validations, then the graph run inside the
    [try] block. *)
Definition research (topic : pystr) : M http_response :=
  if match topic with [] => true | _ :: _ => false end
     || (length (py_strip env topic) <? 3)
  then ret (HTTPError 400
              (DetailText (lit "Topic must be at least 3 characters long")))
  else if 500 <? length topic
  then ret (HTTPError 400
              (DetailText (lit "Topic must be less than 500 characters")))
  else
    fun w =>
      match research_graph_invoke env (initial_state topic) w with
      | (Ok (Some result), w') =>
          (Ok (Success (linkify (default [] (report result)))
                 (sources result) topic), w')
      | (Ok None, w') => (Ok (runtime_error_response recursion_error_msg), w')
      | (Raise (RuntimeError error_msg), w') =>
          (Ok (runtime_error_response error_msg), w')
      | (Raise _, w') => (Ok unexpected_error_response, w')
      end.

End Main.

(** ** streamlit_app.py: the quality label of a displayed source *)

Inductive quality := HighQuality | MediumQuality | LowQuality.

(** [score = source.get('score', 0)] and the three-way test on it. *)
Definition score_label (s : source) : quality :=
  let score := score_or_zero s in
  if Qle_bool (75 # 100) score then HighQuality
  else if Qle_bool (5 # 10) score then MediumQuality
  else LowQuality.

(** ** Vocabulary of the further statements *)

(** ASCII strings and their lower-casing, which [str.lower] performs on
    them. *)
Definition is_ascii (c : N) : bool := (c <? 128)%N.

Definition ascii_lower_char (c : N) : N :=
  if (65 <=? c)%N && (c <=? 90)%N then (c + 32)%N else c.

Definition lower_on_ascii (env : Env) : Prop :=
  forall s, forallb is_ascii s = true ->
            str_lower env s = List.map ascii_lower_char s.

(** [fixed_env] with a [str_lower] that lower-cases ASCII letters. *)
Definition lower_env (reply : api_outcome) (hits : list search_result)
    (decoded : pystr + json) : Env :=
  let e := fixed_env reply hits decoded in
  {| time_time := time_time e;
     strftime_now := strftime_now e;
     gemini_api := gemini_api e;
     tavily_api_key := tavily_api_key e;
     tavily_search := tavily_search e;
     str_lower := List.map ascii_lower_char;
     isdigit := isdigit e;
     isspace := isspace e;
     str_to_int := str_to_int e;
     str_to_float := str_to_float e;
     int_to_float := int_to_float e;
     re_sub_fences := re_sub_fences e;
     json_loads := json_loads e;
     json_dumps := json_dumps e |}.

(** The same environment without a Tavily key. *)
Definition keyless_env (e : Env) : Env :=
  {| time_time := time_time e;
     strftime_now := strftime_now e;
     gemini_api := gemini_api e;
     tavily_api_key := None;
     tavily_search := tavily_search e;
     str_lower := str_lower e;
     isdigit := isdigit e;
     isspace := isspace e;
     str_to_int := str_to_int e;
     str_to_float := str_to_float e;
     int_to_float := int_to_float e;
     re_sub_fences := re_sub_fences e;
     json_loads := json_loads e;
     json_dumps := json_dumps e |}.

(** A string that does not end in whitespace, and one that neither begins
    nor ends in it. *)
Definition no_trailing_space (env : Env) (s : pystr) : Prop :=
  forall pre c, s = pre ++ [c] -> isspace env c = false.

Definition no_leading_space (env : Env) (s : pystr) : Prop :=
  forall c rest, s = c :: rest -> isspace env c = false.

(** Two replies of the model to the Planner's prompt. *)
Definition numbered_reply : pystr :=
  lit "Here is the plan:" ++ [nl] ++ lit "1. solar cells" ++ [nl]
  ++ lit " - wind power" ++ [nl] ++ lit "3.".

Definition plain_reply : pystr :=
  lit "  solar cells " ++ [nl; nl] ++ lit "wind power".

Definition replying_env (reply : pystr) : Env :=
  fixed_env (ApiText reply) [] (inl []).

(** [s'] is the record [s] as the Evaluator leaves it: the same url,
    content and tag, and the very same record if [s] already had a
    score. *)
Definition scored_from (s s' : source) : Prop :=
  url s' = url s /\ content s' = content s
  /\ source_type s' = source_type s
  /\ (has_score s = true -> s' = s).

(** The score of a record, if it has one, lies in [0, 1]. *)
Definition score_in_unit (s : source) : Prop :=
  forall q, score s = Some q -> (0 <= q)%Q /\ (q <= 1)%Q.

(** The answer of [/research] to an exhausted quota. *)
Definition rate_limit_response : http_response :=
  HTTPError 429
    (DetailDict (lit "Rate limit exceeded")
       (lit "The AI service is rate limited. Please wait 1-2 minutes and try again.")
       (Some 60) (Some (lit "Try a simpler topic or wait between requests"))).


(** A substitution that finds no url. *)
Definition no_links (f : pystr -> pystr) (text : pystr) : pystr := text.

(** An endpoint that is rate-limited for the first [failures] calls and
    answers afterwards, under a clock that advances by 10 per reading. *)
Definition flaky_env (failures : nat) : Env :=
  {| time_time := fun i => inject_Z (Z.of_nat (10 * i));
     strftime_now := fun _ => [];
     gemini_api := fun i _ =>
       if i <? failures then quota_error else ApiText (lit "ok");
     tavily_api_key := None;
     tavily_search := fun _ _ => Ok RespOther;
     str_lower := fun s => s;
     isdigit := ascii_digit;
     isspace := ascii_space;
     str_to_int := fun _ => None;
     str_to_float := fun _ => None;
     int_to_float := fun _ => None;
     re_sub_fences := fun s => s;
     json_loads := fun _ => inl [];
     json_dumps := fun _ => [] |}.

(** * Properties *)

(** ** The generation client *)

Section GeminiFacts.
Variable env : Env.

Lemma count_ev_cons p e h :
  count_ev p (e :: h) = (if p e then 1 else 0) + count_ev p h.
Proof. unfold count_ev. simpl. destruct (p e); reflexivity. Qed.

Lemma attempt_loop_api_bound prompt n attempts delay w :
  count_ev is_api (events (attempt_loop env prompt n attempts delay w).2)
  <= count_ev is_api (events w) + length attempts.
Proof.
  revert delay w.
  induction attempts as [|a rest IH]; intros delay w; simpl.
  - lia.
  - unfold bind, read_clock, set_last_request_time, generate_content; simpl.
    destruct (gemini_api env _ prompt) as [text|e]; simpl.
    + rewrite !count_ev_cons; simpl. lia.
    + destruct e; simpl; try (rewrite !count_ev_cons; simpl; lia).
      destruct (is_rate_limit env msg); simpl;
        [|rewrite !count_ev_cons; simpl; lia].
      destruct (a <? n - 1); simpl;
        [|rewrite !count_ev_cons; simpl; lia].
      etransitivity; [apply IH|].
      unfold sleep, log. cbn [events snd]. rewrite !count_ev_cons. simpl. lia.
Qed.

Lemma throttle_events w :
  (throttle env w).1 = Ok tt
  /\ count_ev is_api (events (throttle env w).2) = count_ev is_api (events w).
Proof.
  unfold throttle, bind, read_clock, get_last_request_time, sleep, log, ret.
  simpl. destruct (Qltb _ _); simpl; rewrite !count_ev_cons; simpl; auto.
Qed.

(** One unfolding of the retry loop. *)
Lemma attempt_loop_cons prompt n a rest delay w :
  attempt_loop env prompt n (a :: rest) delay w =
  match gemini_api env (count_ev is_api (events w)) prompt with
  | ApiText text => (Ok text, attempted env prompt w)
  | ApiRaise e =>
      if rate_limited env (ApiRaise e) then
        if a <? n - 1 then
          attempt_loop env prompt n rest (Qmin_py (delay * 2)%Q 30%Q)
            (slept delay (attempted env prompt w))
        else (Raise (RuntimeError rate_limit_msg), attempted env prompt w)
      else (Raise e, attempted env prompt w)
  end.
Proof.
  cbn [attempt_loop].
  unfold bind, read_clock, set_last_request_time, generate_content.
  cbn [fst snd events last_request_time].
  destruct (gemini_api env _ prompt) as [text|[]]; cbn [rate_limited];
    try reflexivity.
  destruct (is_rate_limit env msg); [|reflexivity].
  destruct (a <? n - 1); reflexivity.
Qed.

Lemma count_api_attempted prompt w :
  count_ev is_api (events (attempted env prompt w))
  = S (count_ev is_api (events w)).
Proof. unfold attempted. cbn [events]. rewrite !count_ev_cons. reflexivity. Qed.

Lemma count_api_slept d w :
  count_ev is_api (events (slept d w)) = count_ev is_api (events w).
Proof. unfold slept. cbn [events]. rewrite !count_ev_cons. reflexivity. Qed.

Lemma sleeps_attempted prompt w :
  sleeps_of (events (attempted env prompt w)) = sleeps_of (events w).
Proof. reflexivity. Qed.

(** Every attempt rate-limited: the loop sleeps between attempts and ends
    with the rate-limit error. *)
Lemma attempt_loop_exhausted prompt n m :
  forall a delay w,
    a + S m = n ->
    (forall j, j <= m ->
       rate_limited env
         (gemini_api env (count_ev is_api (events w) + j) prompt) = true) ->
    let rw := attempt_loop env prompt n (seq a (S m)) delay w in
    rw.1 = Raise (RuntimeError rate_limit_msg)
    /\ count_ev is_api (events rw.2) = count_ev is_api (events w) + S m
    /\ sleeps_of (events rw.2)
       = rev (backoff_delays delay m) ++ sleeps_of (events w).
Proof.
  induction m as [|m IH]; intros a delay w Hn Hlim;
    pose proof (Hlim 0 ltac:(lia)) as H0; rewrite Nat.add_0_r in H0;
    cbn zeta; change (seq a (S ?k)) with (a :: seq (S a) k);
    rewrite attempt_loop_cons;
    destruct (gemini_api env _ prompt) as [|e]; try discriminate;
    rewrite H0.
  - replace (a <? n - 1) with false by (symmetry; apply Nat.ltb_ge; lia).
    cbn [fst snd]. rewrite count_api_attempted.
    split; [reflexivity|]. split; [lia|reflexivity].
  - replace (a <? n - 1) with true by (symmetry; apply Nat.ltb_lt; lia).
    destruct (IH (S a) (Qmin_py (delay * 2)%Q 30%Q)
                (slept delay (attempted env prompt w))) as (Hr & Hc & Hs).
    + lia.
    + intros j Hj. rewrite count_api_slept, count_api_attempted.
      replace (S (count_ev is_api (events w)) + j)
        with (count_ev is_api (events w) + S j) by lia.
      apply Hlim. lia.
    + cbn zeta in Hr, Hc, Hs. rewrite Hr, Hc, Hs.
      rewrite count_api_slept, count_api_attempted.
      split; [reflexivity|]. split; [lia|].
      cbn [backoff_delays rev]. rewrite <- app_assoc. reflexivity.
Qed.


Lemma generate_text_retries_unfold prompt n w :
  generate_text_retries env prompt n w
  = attempt_loop env prompt n (seq 0 n) 3%Q (throttle env w).2.
Proof.
  unfold generate_text_retries, bind.
  destruct (throttle_events w) as [Hok _].
  destruct (throttle env w) as [r wt]. cbn [fst snd] in *. rewrite Hok.
  reflexivity.
Qed.


End GeminiFacts.


Example generate_text_single_attempt :
  let env := fixed_env server_error [] (inl []) in
  let rw := generate_text env (lit "q") world0 in
  rw.1 = Raise (ClientError (lit "400 INVALID_ARGUMENT"))
  /\ events rw.2 = [EvApi (lit "q"); EvTime; EvSleep 2%Q; EvTime].
Proof. vm_compute. split; reflexivity. Qed.

Example generate_text_exhausted_log :
  let env := fixed_env quota_error [] (inl []) in
  events (generate_text env (lit "q") world0).2
  = [EvApi (lit "q"); EvTime; EvSleep 6%Q; EvApi (lit "q"); EvTime;
     EvSleep 3%Q; EvApi (lit "q"); EvTime; EvSleep 2%Q; EvTime].
Proof. vm_compute. reflexivity. Qed.

(** ** The Planner *)

Section PlannerFacts.
Variable env : Env.

Lemma parse_plan_nonempty topic output : parse_plan env topic output <> [].
Proof.
  unfold parse_plan.
  destruct (take 4 _) eqn:E; [discriminate|discriminate].
Qed.

Lemma parse_plan_length topic output :
  length (parse_plan env topic output) <= 4.
Proof.
  unfold parse_plan.
  match goal with |- context [take 4 ?l] => remember l as steps end.
  pose proof (length_take steps 4) as Hle.
  destruct (take 4 steps) eqn:E; cbn [length default_steps] in *; lia.
Qed.

Lemma numbered_steps_blank lines :
  Forall (fun line => py_strip env line = []) lines ->
  numbered_steps env lines = [].
Proof.
  induction 1 as [|line lines Hline _ IH]; simpl; [reflexivity|].
  rewrite Hline. simpl. exact IH.
Qed.

Lemma nonblank_lines_blank lines :
  Forall (fun line => py_strip env line = []) lines ->
  nonblank_lines env lines = [].
Proof.
  induction 1 as [|line lines Hline _ IH]; simpl; [reflexivity|].
  rewrite Hline. exact IH.
Qed.

Lemma parse_plan_blank topic output :
  Forall (fun line => py_strip env line = []) (split_lines output) ->
  parse_plan env topic output = default_steps topic.
Proof.
  intros Hblank. unfold parse_plan.
  rewrite numbered_steps_blank, nonblank_lines_blank by assumption.
  reflexivity.
Qed.

(** C6. Whatever the generation call does (return any text or raise any
    exception), [planner_agent] returns normally with a plan that is
    non-empty, has at most 4 entries, and with [current_step] 0.  When the
    returned text has no line that survives stripping (so neither parsing
    pass finds a step), the plan is the three default queries "Find
    recent articles about T", "Search for expert opinions on T" and "Look
    for case studies related to T" for the topic T; when the call raises,
    it is the three fallback queries "Research overview of T", "Find key
    developments in T" and "Explore challenges in T". *)
Theorem planner_agent_total (st : ResearchState) (w : world) :
  exists st' w',
    planner_agent env st w = (Ok st', w')
    /\ plan st' <> []
    /\ length (plan st') <= 4
    /\ current_step st' = 0
    /\ (forall output w1,
          generate_text env (planner_prompt (topic st)) w = (Ok output, w1) ->
          Forall (fun line => py_strip env line = []) (split_lines output) ->
          plan st'
          = [ lit "Find recent articles about " ++ topic st;
              lit "Search for expert opinions on " ++ topic st;
              lit "Look for case studies related to " ++ topic st ]
          /\ length (plan st') = 3)
    /\ (forall e w1,
          generate_text env (planner_prompt (topic st)) w = (Raise e, w1) ->
          plan st'
          = [ lit "Research overview of " ++ topic st;
              lit "Find key developments in " ++ topic st;
              lit "Explore challenges in " ++ topic st ]
          /\ length (plan st') = 3).
Proof.
  unfold planner_agent, try_except, bind.
  destruct (generate_text env (planner_prompt (topic st)) w)
    as [[output|e] w1] eqn:Hgen.
  - eexists _, _. split; [reflexivity|]. cbn [plan current_step planned
      set_status set_current_step set_plan].
    split; [apply parse_plan_nonempty|].
    split; [apply parse_plan_length|].
    split; [reflexivity|]. split.
    + intros output' w1' Heq Hblank. injection Heq as -> _.
      rewrite parse_plan_blank by assumption.
      split; reflexivity.
    + intros e w1' Heq. discriminate.
  - eexists _, _. split; [reflexivity|]. cbn [plan current_step planned
      set_status set_current_step set_plan].
    split; [discriminate|]. split; [unfold fallback_plan; cbn [length]; lia|].
    split; [reflexivity|]. split.
    + intros output' w1' Heq. discriminate.
    + intros e' w1' _. split; reflexivity.
Qed.

End PlannerFacts.

Example planner_numbered_output :
  let reply := lit "Here is the plan:" ++ [nl] ++ lit "1. solar cells"
               ++ [nl] ++ lit " - wind power" ++ [nl] ++ lit "3." in
  let env := fixed_env (ApiText reply) [] (inl []) in
  plan_of_result (planner_agent env (state0 (lit "energy")) world0)
  = Some [lit "solar cells"; lit "wind power"].
Proof. vm_compute. reflexivity. Qed.

Example planner_blank_output :
  let env := fixed_env (ApiText [32%N; nl; tab; nl]) [] (inl []) in
  plan_of_result (planner_agent env (state0 (lit "energy")) world0)
  = Some (default_steps (lit "energy")).
Proof. vm_compute. reflexivity. Qed.

Example planner_generation_error :
  let env := fixed_env server_error [] (inl []) in
  plan_of_result (planner_agent env (state0 (lit "energy")) world0)
  = Some (fallback_plan (lit "energy")).
Proof. vm_compute. reflexivity. Qed.

(** ** The Searcher *)

Section SearcherFacts.
Variable env : Env.

(** The loop only appends, keeps the urls distinct, and appends no record
    with an empty url. *)
Lemma add_results_spec results :
  forall (seen : gset pystr) (srcs : list source),
    (forall u, u ∈ url <$> srcs -> u ∈ seen) ->
    NoDup (url <$> srcs) ->
    exists added,
      add_results results seen srcs = srcs ++ added
      /\ NoDup (url <$> srcs ++ added)
      /\ Forall (fun s => url s <> []) added.
Proof.
  induction results as [|r rest IH]; intros seen srcs Hseen Hnd; simpl.
  - exists []. rewrite app_nil_r. auto.
  - destruct (r_url r) as [[|c u]|]; [apply IH; assumption| |apply IH; assumption].
    destruct (decide (c :: u ∈ seen)) as [Hin|Hnotin]; [apply IH; assumption|].
    set (new := Source (c :: u) (take 4000 (default [] (r_content r)))
                  (lit "tavily") None None).
    destruct (IH ({[c :: u]} ∪ seen) (srcs ++ [new])) as (added & Heq & Hnd' & Hne).
    + intros v Hv. rewrite fmap_app in Hv. apply elem_of_app in Hv.
      destruct Hv as [Hv|Hv]; [apply elem_of_union_r, Hseen, Hv|].
      simpl in Hv. apply list_elem_of_singleton in Hv. subst v.
      apply elem_of_union_l, elem_of_singleton. reflexivity.
    + rewrite fmap_app. apply NoDup_app. split; [assumption|]. split.
      * intros v Hv Hv'. simpl in Hv'. apply list_elem_of_singleton in Hv'.
        subst v. apply Hnotin, Hseen, Hv.
      * simpl. apply NoDup_singleton.
    + exists (new :: added). rewrite Heq, <- app_assoc. simpl.
      split; [reflexivity|]. split.
      * rewrite <- app_assoc in Hnd'. exact Hnd'.
      * constructor; [discriminate|exact Hne].
Qed.

Lemma seen_urls_covers srcs u : u ∈ url <$> srcs -> u ∈ seen_urls srcs.
Proof. unfold seen_urls. intros H. apply elem_of_list_to_set. exact H. Qed.

(** The shape of a call that gets past the guard and the key check. *)
Lemma search_agent_inv st w st' w' :
  search_agent env st w = (Ok st', w') ->
  (length (plan st) <= current_step st /\ st' = st /\ w' = w)
  \/ (current_step st < length (plan st)
      /\ exists query resp,
           plan st !! current_step st = Some query
           /\ w' = World (last_request_time w) (EvSearch query :: events w)
           /\ st' = set_current_step
                      (set_sources st
                         (add_results (results_of resp)
                            (seen_urls (sources st)) (sources st)))
                      (current_step st + 1)).
Proof.
  unfold search_agent.
  destruct (length (plan st) <=? current_step st) eqn:Hguard.
  - apply Nat.leb_le in Hguard. unfold ret. intros [= <- <-]. left. auto.
  - apply Nat.leb_gt in Hguard.
    destruct (falsy (tavily_api_key env)); [discriminate|].
    destruct (plan st !! current_step st) as [query|] eqn:Hq; [|discriminate].
    unfold bind, client_search, ret.
    destruct (tavily_search env _ query) as [resp|e]; [|discriminate].
    intros [= <- <-]. right. split; [assumption|]. eauto.
Qed.

Lemma search_agent_keeps_unique st w st' w' :
  NoDup (url <$> sources st) ->
  search_agent env st w = (Ok st', w') ->
  exists added,
    sources st' = sources st ++ added
    /\ NoDup (url <$> sources st')
    /\ Forall (fun s => url s <> []) added.
Proof.
  intros Hnd Hrun.
  destruct (search_agent_inv _ _ _ _ Hrun)
    as [(_ & -> & _)|(_ & query & resp & _ & _ & ->)].
  - exists []. rewrite app_nil_r. auto.
  - cbn [sources set_current_step set_sources].
    destruct (add_results_spec (results_of resp) (seen_urls (sources st))
                (sources st)) as (added & Heq & Hnd' & Hne);
      [apply seen_urls_covers|assumption|].
    exists added. rewrite Heq. auto.
Qed.

(** C4. If the urls of [sources] are pairwise distinct before
    [search_agent] runs, then whatever the search returns (overlapping
    urls included) the call only appends records, the urls are pairwise
    distinct afterwards, and no appended record has an empty url (a result
    without a url is skipped); so two calls in a row leave the urls
    distinct as well. *)
Theorem search_agent_urls_unique (st : ResearchState) (w : world) :
  NoDup (url <$> sources st) ->
  forall st1 w1,
    search_agent env st w = (Ok st1, w1) ->
    (exists added,
       sources st1 = sources st ++ added
       /\ NoDup (url <$> sources st1)
       /\ Forall (fun s => url s <> []) added)
    /\ (forall st2 w2,
          search_agent env st1 w1 = (Ok st2, w2) ->
          NoDup (url <$> sources st2)).
Proof.
  intros Hnd st1 w1 Hrun1.
  destruct (search_agent_keeps_unique _ _ _ _ Hnd Hrun1)
    as (added & Heq & Hnd1 & Hne).
  split; [eauto|].
  intros st2 w2 Hrun2.
  destruct (search_agent_keeps_unique _ _ _ _ Hnd1 Hrun2) as (? & _ & H & _).
  exact H.
Qed.

End SearcherFacts.

Lemma search_agent_urls_unique_witness :
  let env := fixed_env quota_error overlapping_hits (inl []) in
  exists st1 w1 st2 w2,
    search_agent env searching_state world0 = (Ok st1, w1)
    /\ search_agent env st1 w1 = (Ok st2, w2)
    /\ url <$> sources st1 = [lit "http://a"; lit "http://b"; lit "http://c"]
    /\ NoDup (url <$> sources st1)
    /\ NoDup (url <$> sources st2).
Proof.
  cbn zeta. eexists _, _, _, _.
  split; [vm_compute; reflexivity|].
  split; [vm_compute; reflexivity|].
  split; [vm_compute; reflexivity|].
  edestruct (search_agent_urls_unique
               (fixed_env quota_error overlapping_hits (inl []))
               searching_state world0) as [(added & _ & Hnd & _) Htwice].
  - apply (bool_decide_unpack _). vm_compute. exact I.
  - vm_compute. reflexivity.
  - split; [exact Hnd|]. eapply Htwice. vm_compute. reflexivity.
Defined.

(** ** The Evaluator *)

(** *** The stable descending sort *)

Lemma Qltb_lt a b : Qltb a b = true <-> (a < b)%Q.
Proof.
  unfold Qltb. rewrite negb_true_iff.
  split; intros H.
  - apply Qnot_le_lt. intros Hle. apply Qle_bool_iff in Hle. congruence.
  - destruct (Qle_bool b a) eqn:E; [|reflexivity].
    apply Qle_bool_iff in E. exfalso. exact (Qlt_not_le _ _ H E).
Qed.

Lemma Qltb_ge a b : Qltb a b = false <-> (b <= a)%Q.
Proof.
  unfold Qltb. rewrite negb_false_iff. apply Qle_bool_iff.
Qed.

Lemma insert_desc_perm x l : Permutation (insert_desc x l) (x :: l).
Proof.
  induction l as [|y l IH]; simpl; [reflexivity|].
  destruct (Qltb _ _); [|reflexivity].
  rewrite IH. apply perm_swap.
Qed.

Lemma sorted_desc_perm l : Permutation (sorted_desc l) l.
Proof.
  induction l as [|x l IH]; simpl; [reflexivity|].
  rewrite insert_desc_perm. constructor. exact IH.
Qed.

Lemma insert_desc_sorted x l :
  StronglySorted score_ge l -> StronglySorted score_ge (insert_desc x l).
Proof.
  induction 1 as [|y l Hs IH Hall]; simpl.
  - constructor; constructor.
  - destruct (Qltb (score_or_zero x) (score_or_zero y)) eqn:E.
    + constructor; [exact IH|].
      apply Qltb_lt in E.
      rewrite Forall_forall. intros z Hz.
      apply list_elem_of_In in Hz.
      apply (Permutation_in _ (insert_desc_perm x l)) in Hz.
      destruct Hz as [<-|Hz].
      * apply Qlt_le_weak, E.
      * rewrite Forall_forall in Hall. apply Hall, list_elem_of_In, Hz.
    + apply Qltb_ge in E.
      constructor; [constructor; assumption|].
      constructor; [exact E|].
      rewrite Forall_forall in Hall |- *. intros z Hz.
      unfold score_ge in *. eapply Qle_trans; [apply Hall, Hz|exact E].
Qed.

Lemma sorted_desc_sorted l : StronglySorted score_ge (sorted_desc l).
Proof.
  induction l as [|x l IH]; simpl; [constructor|].
  apply insert_desc_sorted, IH.
Qed.

Lemma insert_desc_stable q x l :
  List.filter (same_score q) (insert_desc x l)
  = List.filter (same_score q) (x :: l).
Proof.
  induction l as [|y l IH]; [reflexivity|].
  cbn [insert_desc].
  destruct (Qltb (score_or_zero x) (score_or_zero y)) eqn:E; [|reflexivity].
  apply Qltb_lt in E.
  cbn [List.filter] in *. rewrite IH.
  unfold same_score.
  destruct (Qeq_bool (score_or_zero x) q) eqn:Ex;
    destruct (Qeq_bool (score_or_zero y) q) eqn:Ey; try reflexivity.
  apply Qeq_bool_iff in Ex, Ey. exfalso.
  rewrite Ex, Ey in E. exact (Qlt_irrefl _ E).
Qed.

Lemma sorted_desc_stable q l :
  List.filter (same_score q) (sorted_desc l) = List.filter (same_score q) l.
Proof.
  induction l as [|x l IH]; [reflexivity|].
  cbn [sorted_desc]. rewrite insert_desc_stable.
  cbn [List.filter]. rewrite IH. reflexivity.
Qed.

Lemma sorted_desc_nil l : sorted_desc l = [] -> l = [].
Proof.
  intros H. pose proof (sorted_desc_perm l) as Hp. rewrite H in Hp.
  destruct l; [reflexivity|]. apply Permutation_nil_cons in Hp. contradiction.
Qed.

Lemma filter_or_top3_nonempty kept : kept <> [] -> filter_or_top3 kept <> [].
Proof.
  intros Hne. unfold filter_or_top3.
  destruct (List.filter credible kept); [|discriminate].
  destruct (sorted_desc kept) eqn:E; [|discriminate].
  apply sorted_desc_nil in E. contradiction.
Qed.

(** *** The loops of the Evaluator *)

Section EvaluatorFacts.
Variable env : Env.

Lemma split_scored_kept i srcs :
  (split_scored i srcs).1 = already_scored srcs.
Proof.
  revert i. induction srcs as [|s rest IH]; intros i; [reflexivity|].
  cbn [split_scored already_scored List.filter]. specialize (IH (S i)).
  unfold has_score.
  destruct (split_scored (S i) rest) as [kept to_score]. cbn [fst] in IH.
  destruct (score s); cbn [fst]; rewrite IH; reflexivity.
Qed.

Lemma split_scored_length i srcs :
  length (split_scored i srcs).1 + length (split_scored i srcs).2
  = length srcs.
Proof.
  revert i. induction srcs as [|s rest IH]; intros i; [reflexivity|].
  cbn [split_scored]. specialize (IH (S i)).
  destruct (split_scored (S i) rest) as [kept to_score].
  destruct (score s); cbn [fst snd length] in *; lia.
Qed.

(** The scoring loop never indexes out of range, and appends the updated
    unscored sources in order. *)
Lemma attach_split body srcs :
  forall pre kept0,
    attach body (pre ++ srcs) (split_scored (length pre) srcs).2 kept0
    = Ok (kept0 ++ newly_scored body (length pre) srcs).
Proof.
  induction srcs as [|s rest IH]; intros pre kept0.
  - simpl. rewrite app_nil_r. reflexivity.
  - cbn [split_scored newly_scored]. unfold has_score.
    specialize (IH (pre ++ [s])).
    rewrite length_app, Nat.add_1_r, <- app_assoc in IH. cbn [app] in IH.
    destruct (split_scored (S (length pre)) rest) as [kept to_score].
    cbn [snd] in *.
    destruct (score s) eqn:Hs; cbn [snd]; [apply IH|].
    cbn [attach item_id].
    rewrite lookup_app_r by lia. rewrite Nat.sub_diag. cbn [lookup list_lookup].
    rewrite IH, <- app_assoc. reflexivity.
Qed.

Lemma newly_scored_length body i srcs :
  length (newly_scored body i srcs) = length (split_scored i srcs).2.
Proof.
  revert i. induction srcs as [|s rest IH]; intros i; [reflexivity|].
  cbn [split_scored newly_scored]. unfold has_score. specialize (IH (S i)).
  destruct (split_scored (S i) rest) as [kept to_score].
  destruct (score s); cbn [snd length] in *; lia.
Qed.

Lemma kept_after_length body srcs :
  length (kept_after body srcs) = length srcs.
Proof.
  unfold kept_after.
  rewrite length_app, <- (split_scored_kept 0), (newly_scored_length _ 0).
  apply split_scored_length.
Qed.

(** The four ways through [evaluator_agent]. *)
Lemma evaluator_agent_cases st w :
  sources st <> [] ->
  let to_score := (split_scored 0 (sources st)).2 in
  evaluator_agent env st w =
  match to_score with
  | [] => (Ok (set_sources st (already_scored (sources st))), w)
  | _ :: _ =>
      match generate_text env (evaluator_prompt env to_score) w with
      | (Raise e, w1) => (Raise e, w1)
      | (Ok raw, w1) =>
          match parse_scores env raw with
          | inl msg =>
              (Ok (set_sources st
                     (kept_after (fun _ => mark_failed msg) (sources st))), w1)
          | inr scores =>
              (Ok (set_sources st
                     (filter_or_top3
                        (kept_after
                           (mark_scored (build_score_map env (as_list scores) ∅))
                           (sources st)))), w1)
          end
      end
  end.
Proof.
  intros Hne. cbn zeta. unfold evaluator_agent, kept_after.
  destruct (sources st) as [|s0 rest] eqn:Hsrc; [contradiction|].
  rewrite <- Hsrc. clear Hne.
  pose proof (split_scored_kept 0 (sources st)) as Hkept.
  pose proof (fun body kept0 => attach_split body (sources st) [] kept0) as Hatt.
  cbn [app length] in Hatt.
  destruct (split_scored 0 (sources st)) as [kept to_score].
  cbn [fst snd] in *. subst kept.
  destruct to_score as [|item items]; [reflexivity|].
  unfold bind.
  destruct (generate_text env _ w) as [[raw|e] w1]; [|reflexivity].
  destruct (parse_scores env raw) as [msg|scores];
    unfold lift, ret; rewrite Hatt; reflexivity.
Qed.

(** *** Clamping and the score map *)


Lemma clamp_finite q :
  clamp (FFin q)
  = if Qltb q 1 then (if Qltb 0 q then q else 0%Q) else 1%Q.
Proof.
  unfold clamp, py_max, py_min. cbn [flt].
  destruct (Qltb q 1); cbn [flt]; [|reflexivity].
  destruct (Qltb 0 q); reflexivity.
Qed.

Lemma clamp_range x : (0 <= clamp x)%Q /\ (clamp x <= 1)%Q.
Proof.
  destruct x as [|[]|q]; try (split; vm_compute; discriminate).
  rewrite clamp_finite.
  destruct (Qltb q 1) eqn:E1; [|split; vm_compute; discriminate].
  apply Qltb_lt in E1.
  destruct (Qltb 0 q) eqn:E0.
  - apply Qltb_lt in E0. split; apply Qlt_le_weak; assumption.
  - split; vm_compute; discriminate.
Qed.

Lemma score_entry_coercions obj :
  score_entry env obj =
  match entry_score env obj, entry_id env obj with
  | Some x, Some k => Some (k, clamp x)
  | _, _ => None
  end.
Proof.
  unfold score_entry, entry_score, entry_id.
  destruct (subscript obj (lit "score")) as [sv|].
  - destruct (py_float env sv); [|reflexivity].
    destruct (subscript obj (lit "id")) as [iv|]; [|reflexivity].
    destruct (py_int env iv); reflexivity.
  - destruct (subscript obj (lit "id")) as [iv|]; [|reflexivity].
    destruct (py_int env iv); reflexivity.
Qed.

Lemma build_score_map_lookup objs :
  forall (m : gmap Z Q) k,
    build_score_map env objs m !! k =
    match last_entry env objs k with
    | Some v => Some v
    | None => m !! k
    end.
Proof.
  induction objs as [|obj rest IH]; intros m k; [reflexivity|].
  cbn [build_score_map last_entry]. rewrite IH.
  destruct (last_entry env rest k); [reflexivity|].
  rewrite score_entry_coercions.
  destruct (entry_score env obj) as [x|]; [|reflexivity].
  destruct (entry_id env obj) as [k'|]; [|reflexivity].
  destruct (decide (k' = k)) as [->|Hne].
  - apply lookup_insert_eq.
  - apply lookup_insert_ne. exact Hne.
Qed.

Lemma last_entry_origin objs k v :
  last_entry env objs k = Some v ->
  exists obj x,
    obj ∈ objs /\ entry_id env obj = Some k
    /\ entry_score env obj = Some x /\ v = clamp x.
Proof.
  induction objs as [|obj rest IH]; [discriminate|].
  cbn [last_entry].
  destruct (last_entry env rest k) as [v'|].
  - intros [= ->]. destruct (IH eq_refl) as (o & x & Hin & H).
    exists o, x. split; [right; exact Hin|exact H].
  - destruct (entry_score env obj) as [x|] eqn:Hx; [|discriminate].
    destruct (entry_id env obj) as [k'|] eqn:Hk; [|discriminate].
    destruct (decide (k' = k)) as [->|]; [|discriminate].
    intros [= <-]. exists obj, x. split; [left|]. auto.
Qed.

Lemma split_scored_none i srcs :
  forallb has_score srcs = false -> (split_scored i srcs).2 <> [].
Proof.
  revert i. induction srcs as [|s rest IH]; intros i; [discriminate|].
  cbn [forallb split_scored]. unfold has_score at 1. specialize (IH (S i)).
  destruct (split_scored (S i) rest) as [kept to_score].
  destruct (score s); cbn [andb snd] in *; [exact IH|discriminate].
Qed.

Lemma nonempty_length {A} (l : list A) : l <> [] <-> 0 < length l.
Proof. destruct l; simpl; split; intros; try lia; congruence. Qed.

(** C1 (as the code has it). When some source is unscored and the
    generation call returns, the parse-success path sets [sources] to the
    kept sources with score >= 0.6 and, if there is none, to the first
    three of the kept sources ranked by score, largest first, equal scores
    in the order they have in the kept list (stable sort); the
    parse-failure path sets [sources] to all the kept sources, unfiltered
    (the already-scored ones, then the unscored ones with score 0.3 and
    the [eval_error] annotation). *)
Theorem evaluator_agent_scoring_result (st : ResearchState) (w : world)
    (raw : pystr) (w1 : world) :
  forallb has_score (sources st) = false ->
  generate_text env
    (evaluator_prompt env (split_scored 0 (sources st)).2) w = (Ok raw, w1) ->
  match parse_scores env raw with
  | inr scores =>
      let kept :=
        kept_after (mark_scored (build_score_map env (as_list scores) ∅))
          (sources st) in
      let good := List.filter credible kept in
      exists result,
        evaluator_agent env st w = (Ok (set_sources st result), w1)
        /\ (good <> [] -> result = good)
        /\ (good = [] ->
            exists ranked,
              result = take 3 ranked
              /\ Permutation ranked kept
              /\ StronglySorted score_ge ranked
              /\ forall q, List.filter (same_score q) ranked
                           = List.filter (same_score q) kept)
  | inl msg =>
      evaluator_agent env st w
      = (Ok (set_sources st
               (kept_after (fun _ => mark_failed msg) (sources st))), w1)
  end.
Proof.
  intros Hsome Hgen.
  assert (Hne : sources st <> []).
  { intros E. rewrite E in Hsome. discriminate. }
  pose proof (split_scored_none 0 _ Hsome) as Hts.
  rewrite (evaluator_agent_cases st w Hne). cbn zeta.
  destruct (split_scored 0 (sources st)).2 as [|item items]; [contradiction|].
  rewrite Hgen.
  destruct (parse_scores env raw) as [msg|scores]; [reflexivity|].
  cbn zeta. eexists. split; [reflexivity|].
  unfold filter_or_top3. split.
  - intros Hgood. destruct (List.filter credible _); [contradiction|reflexivity].
  - intros ->. eexists. split; [reflexivity|].
    split; [apply sorted_desc_perm|].
    split; [apply sorted_desc_sorted|].
    intros q. apply sorted_desc_stable.
Qed.

(** C3. If [sources] is non-empty when [evaluator_agent] is called, it is
    non-empty when the call returns, on every path (nothing to score,
    parse failure, parse success with every score below 0.6); the only
    way not to return is the generation call raising. *)
Theorem evaluator_agent_never_empties (st : ResearchState) (w : world) :
  sources st <> [] ->
  match evaluator_agent env st w with
  | (Ok st', _) => sources st' <> []
  | (Raise e, w') => exists prompt, generate_text env prompt w = (Raise e, w')
  end.
Proof.
  intros Hne. rewrite (evaluator_agent_cases st w Hne). cbn zeta.
  pose proof (split_scored_length 0 (sources st)) as Hlen.
  rewrite split_scored_kept in Hlen.
  apply nonempty_length in Hne.
  destruct (split_scored 0 (sources st)).2 as [|item items] eqn:Hts.
  - cbn [sources set_sources]. apply nonempty_length.
    cbn [length] in Hlen. lia.
  - destruct (generate_text env _ w) as [[raw|e] w1] eqn:Hgen; [|eauto].
    destruct (parse_scores env raw) as [msg|scores];
      cbn [sources set_sources].
    + apply nonempty_length. rewrite kept_after_length. exact Hne.
    + apply filter_or_top3_nonempty, nonempty_length.
      rewrite kept_after_length. exact Hne.
Qed.


End EvaluatorFacts.

Example evaluator_top3_fallback :
  sources_of_result (evaluator_agent (scoring_env low_scores) four_fresh world0)
  = Some [ with_score (fresh_source "http://a" "A") (5 # 10) None;
           with_score (fresh_source "http://d" "D") (5 # 10) None;
           with_score (fresh_source "http://c" "C") (3 # 10) None ].
Proof. vm_compute. reflexivity. Qed.

Example evaluator_wild_scores :
  sources_of_result (evaluator_agent (scoring_env wild_scores) four_fresh world0)
  = Some [ with_score (fresh_source "http://a" "A") 1 None;
           with_score (fresh_source "http://b" "B") 1 None ].
Proof. vm_compute. reflexivity. Qed.

Lemma evaluator_agent_scoring_witness :
  let env := scoring_env low_scores in
  let gen := generate_text env
               (evaluator_prompt env (split_scored 0 (sources four_fresh)).2)
               world0 in
  forallb has_score (sources four_fresh) = false
  /\ gen = (Ok (lit "[...]"), gen.2)
  /\ exists result,
       evaluator_agent env four_fresh world0
       = (Ok (set_sources four_fresh result), gen.2)
       /\ length result <= 3.
Proof.
  cbn zeta.
  split; [reflexivity|]. split; [vm_compute; reflexivity|].
  pose proof (evaluator_agent_scoring_result (scoring_env low_scores)
                four_fresh world0 (lit "[...]") _
                ltac:(reflexivity) ltac:(vm_compute; reflexivity)) as H.
  change (parse_scores (scoring_env low_scores) (lit "[...]"))
    with (@inr pystr json (JList low_scores)) in H.
  cbn zeta in H. destruct H as (result & Hrun & _ & Htop).
  exists result. split; [exact Hrun|].
  destruct Htop as (ranked & -> & _); [vm_compute; reflexivity|].
  rewrite length_take. lia.
Defined.

(** On the parse-failure path nothing is filtered: a source scored 0.9
    and a source just given the default 0.3 are both kept, although the
    first alone passes the 0.6 filter. *)
Lemma evaluator_parse_failure_keeps_all :
  let a := scored_source "http://a" (9 # 10) in
  let b := with_score (fresh_source "http://b" "B") (3 # 10)
             (Some (lit "JSON parse failed: Expecting value")) in
  sources_of_result (evaluator_agent garbled_env one_scored_one_fresh world0)
  = Some [a; b]
  /\ List.filter credible [a; b] = [a]
  /\ [a; b] <> filter_or_top3 [a; b].
Proof.
  cbn zeta. split; [vm_compute; reflexivity|].
  split; [vm_compute; reflexivity|].
  vm_compute. discriminate.
Qed.

Lemma evaluator_agent_never_empties_witness :
  sources four_fresh <> []
  /\ match evaluator_agent (scoring_env low_scores) four_fresh world0 with
     | (Ok st', _) => sources st' <> []
     | (Raise e, w') =>
         exists prompt,
           generate_text (scoring_env low_scores) prompt world0 = (Raise e, w')
     end.
Proof.
  split; [discriminate|].
  apply (evaluator_agent_never_empties (scoring_env low_scores)
           four_fresh world0).
  discriminate.
Defined.


(** ** The Synthesizer *)

Section SynthesizerFacts.
Variable env : Env.

Lemma generate_text_calls_api prompt w :
  count_ev is_api (events w)
  < count_ev is_api (events (generate_text env prompt w).2).
Proof.
  unfold generate_text. rewrite generate_text_retries_unfold.
  destruct (throttle_events env w) as [_ <-].
  change (seq 0 3) with (0 :: seq 1 2). rewrite attempt_loop_cons.
  set (wt := (throttle env w).2).
  assert (Hmono : forall rest d w0,
             count_ev is_api (events w0)
             <= count_ev is_api
                  (events (attempt_loop env prompt 3 rest d w0).2)).
  { induction rest as [|a rest IH]; intros d w0; [simpl; lia|].
    rewrite attempt_loop_cons.
    destruct (gemini_api env _ prompt) as [?|e]; cbn [snd];
      [rewrite count_api_attempted; lia|].
    destruct (rate_limited env (ApiRaise e));
      [|cbn [snd]; rewrite count_api_attempted; lia].
    destruct (a <? 3 - 1); [|cbn [snd]; rewrite count_api_attempted; lia].
    etransitivity; [|apply IH].
    rewrite count_api_slept, count_api_attempted. lia. }
  destruct (gemini_api env _ prompt) as [?|e]; cbn [snd];
    [rewrite count_api_attempted; lia|].
  destruct (rate_limited env (ApiRaise e));
    [|cbn [snd]; rewrite count_api_attempted; lia].
  cbn [Nat.ltb Nat.leb Nat.sub].
  eapply Nat.lt_le_trans; [|apply Hmono].
  rewrite count_api_slept, count_api_attempted. lia.
Qed.

Lemma falsy_negb_some text : text <> [] -> negb (falsy (Some text)) = true.
Proof. destruct text; [contradiction|reflexivity]. Qed.

(** C8 (as the code has it). When the report is set to a non-empty
    string, [synthesizer_agent] returns the very state it was given and
    leaves the world as it was: the report is unchanged whatever [sources]
    holds now, and no generation call (indeed no effect at all) is
    issued. *)
Theorem synthesizer_agent_noop_when_reported (s : any_state) (w : world)
    (text : pystr) :
  state_report s = Some text ->
  text <> [] ->
  synthesizer_agent env s w = (Ok s, w).
Proof.
  intros Hrep Hne. unfold synthesizer_agent.
  rewrite Hrep, (falsy_negb_some text Hne). reflexivity.
Qed.

(** C9. With no report set and no sources (an empty list or, for a dict
    state, a missing value), [synthesizer_agent] stores the fixed
    diagnostic message as the report and leaves the world as it was: no
    generation call is issued. *)
Theorem synthesizer_agent_no_sources (s : any_state) (w : world) :
  state_report s = None ->
  state_sources s = [] ->
  synthesizer_agent env s w = (Ok (with_report s no_sources_msg), w)
  /\ state_report (with_report s no_sources_msg)
     = Some (lit "No sources were retrieved. Check Tavily key/config or try a different query.").
Proof.
  intros Hrep Hsrc. unfold synthesizer_agent. rewrite Hrep, Hsrc.
  split; [reflexivity|]. destruct s; reflexivity.
Qed.

(** C10. A report equal to the empty string is treated as absent: the
    call behaves exactly as on the state with the report cleared, it does
    not take the no-op path.  With sources present it issues a generation
    call and, when that returns, overwrites the report with the generated
    text; with no sources it overwrites the report with the diagnostic
    message. *)
Theorem synthesizer_agent_empty_report (s : any_state) (w : world) :
  state_report s = Some [] ->
  let rw := synthesizer_agent env s w in
  rw = synthesizer_agent env (without_report s) w
  /\ (state_sources s <> [] ->
      count_ev is_api (events w) < count_ev is_api (events rw.2)
      /\ forall s', rw.1 = Ok s' ->
           exists prompt w1 report_text,
             generate_text env prompt w1 = (Ok report_text, rw.2)
             /\ s' = with_report s report_text
             /\ state_report s' = Some report_text)
  /\ (state_sources s = [] ->
      rw = (Ok (with_report s no_sources_msg), w)).
Proof.
  intros Hrep. cbn zeta. unfold synthesizer_agent. rewrite Hrep.
  cbn [falsy negb].
  split; [destruct s; reflexivity|]. split.
  - intros Hsrc.
    destruct (state_sources s) as [|s0 rest] eqn:E; [contradiction|].
    unfold bind, today, ret. cbn [fst snd].
    match goal with
    | |- context [generate_text env ?p ?w1] =>
        pose proof (generate_text_calls_api p w1) as Hcall;
        destruct (generate_text env p w1) as [[report_text|e] w2] eqn:Hgen
    end; cbn [fst snd events] in *; rewrite count_ev_cons in Hcall;
      cbn [is_api] in Hcall; (split; [lia|]).
    + intros s' [= <-]. eexists _, _, report_text.
      split; [exact Hgen|]. split; [reflexivity|]. destruct s; reflexivity.
    + intros s' [=].
  - intros ->. reflexivity.
Qed.

End SynthesizerFacts.

Lemma synthesizer_agent_noop_witness :
  let st := reported_state (lit "# Research Report") [] in
  state_report (AsObject st) = Some (lit "# Research Report")
  /\ synthesizer_agent garbled_env (AsObject st) world0
     = (Ok (AsObject st), world0).
Proof.
  split; [reflexivity|].
  apply (synthesizer_agent_noop_when_reported garbled_env _ world0
           (lit "# Research Report")); [reflexivity|discriminate].
Defined.

(** A report that is set, but to the empty string, does not stop the
    Synthesizer: it calls the model and replaces the report. *)
Lemma synthesizer_agent_rewrites_empty_report :
  let st := reported_state [] [scored_source "http://a" (9 # 10)] in
  let rw := synthesizer_agent garbled_env (AsObject st) world0 in
  report st = Some []
  /\ rw.1 = Ok (AsObject (set_report st (Some (lit "Sure! Here you go"))))
  /\ count_ev is_api (events rw.2) = 1
  /\ rw <> (Ok (AsObject st), world0).
Proof.
  cbn zeta. split; [reflexivity|]. split; [vm_compute; reflexivity|].
  split; [vm_compute; reflexivity|]. vm_compute. discriminate.
Qed.

Lemma synthesizer_agent_no_sources_witness :
  let s := AsDict (DictState None (Some (lit "t")) None) in
  synthesizer_agent garbled_env s world0
  = (Ok (AsDict (DictState None None (Some no_sources_msg))), world0).
Proof.
  cbn zeta.
  destruct (synthesizer_agent_no_sources garbled_env
              (AsDict (DictState None (Some (lit "t")) None)) world0)
    as [Hrun _]; [reflexivity|reflexivity|].
  exact Hrun.
Defined.

Lemma synthesizer_agent_empty_report_witness :
  let st := reported_state [] [scored_source "http://a" (9 # 10)] in
  let rw := synthesizer_agent garbled_env (AsObject st) world0 in
  rw = synthesizer_agent garbled_env (AsObject (set_report st None)) world0
  /\ 0 < count_ev is_api (events rw.2).
Proof.
  cbn zeta.
  destruct (synthesizer_agent_empty_report garbled_env
              (AsObject (reported_state [] [scored_source "http://a" (9 # 10)]))
              world0) as (Heq & Hcall & _); [reflexivity|].
  cbn zeta in Heq, Hcall. split; [exact Heq|].
  destruct Hcall as [Hlt _]; [discriminate|]. exact Hlt.
Defined.

(** ** The step sequencer *)

Section GraphFacts.
Variable env : Env.

Lemma quiet_ret {A} (a : A) : quiet (ret a).
Proof. intros n w. reflexivity. Qed.

Lemma quiet_raise {A} e : quiet (@raise A e).
Proof. intros n w. reflexivity. Qed.

Lemma quiet_lift {A} (r : result A) : quiet (lift r).
Proof. intros n w. reflexivity. Qed.

Lemma quiet_bind {A B} (c : M A) (k : A -> M B) :
  quiet c -> (forall a, quiet (k a)) -> quiet (bind c k).
Proof.
  intros Hc Hk n w. unfold bind. specialize (Hc n w).
  destruct (c w) as [[a|e] w1]; cbn [snd] in *; [|exact Hc].
  rewrite Hk. exact Hc.
Qed.

Lemma quiet_try_except {A} (c : M A) (h : exn -> M A) :
  quiet c -> (forall e, quiet (h e)) -> quiet (try_except c h).
Proof.
  intros Hc Hh n w. unfold try_except. specialize (Hc n w).
  destruct (c w) as [[a|e] w1]; cbn [snd] in *; [exact Hc|].
  rewrite Hh. exact Hc.
Qed.

Lemma quiet_log e : (forall n, is_node n e = false) -> quiet (log e).
Proof.
  intros He n w. unfold log. cbn [snd events].
  rewrite count_ev_cons, He. reflexivity.
Qed.

Lemma quiet_read_clock : quiet (read_clock env).
Proof. intros n w. unfold read_clock. cbn [snd events]. apply count_ev_cons. Qed.

Lemma quiet_today : quiet (today env).
Proof. intros n w. unfold today. cbn [snd events]. apply count_ev_cons. Qed.

Lemma quiet_generate_content prompt : quiet (generate_content env prompt).
Proof.
  intros n w. unfold generate_content. cbn [snd events]. apply count_ev_cons.
Qed.

Lemma quiet_client_search query : quiet (client_search env query).
Proof.
  intros n w. unfold client_search. cbn [snd events]. apply count_ev_cons.
Qed.

Lemma quiet_sleep d : quiet (sleep d).
Proof. apply quiet_log. reflexivity. Qed.

Lemma quiet_attempt_loop prompt max_retries attempts :
  forall delay, quiet (attempt_loop env prompt max_retries attempts delay).
Proof.
  induction attempts as [|a rest IH]; intros delay; cbn [attempt_loop].
  - apply quiet_raise.
  - apply quiet_bind; [apply quiet_read_clock|]. intros t.
    apply quiet_bind; [intros n w; reflexivity|]. intros _.
    apply quiet_bind; [apply quiet_generate_content|]. intros [text|e].
    + apply quiet_ret.
    + destruct e; try apply quiet_raise.
      destruct (is_rate_limit env msg); [|apply quiet_raise].
      destruct (a <? max_retries - 1); [|apply quiet_raise].
      apply quiet_bind; [apply quiet_sleep|]. intros _. apply IH.
Qed.

Lemma quiet_generate_text prompt : quiet (generate_text env prompt).
Proof.
  unfold generate_text, generate_text_retries.
  apply quiet_bind; [|intros _; apply quiet_attempt_loop].
  unfold throttle.
  apply quiet_bind; [apply quiet_read_clock|]. intros now.
  apply quiet_bind; [intros n w; reflexivity|]. intros last.
  destruct (Qltb _ _); [apply quiet_sleep|apply quiet_ret].
Qed.

Lemma quiet_search_agent st : quiet (search_agent env st).
Proof.
  unfold search_agent.
  destruct (length (plan st) <=? current_step st); [apply quiet_ret|].
  destruct (falsy (tavily_api_key env)); [apply quiet_raise|].
  destruct (plan st !! current_step st); [|apply quiet_raise].
  apply quiet_bind; [apply quiet_client_search|]. intros resp. apply quiet_ret.
Qed.

Lemma quiet_evaluator_agent st : quiet (evaluator_agent env st).
Proof.
  unfold evaluator_agent.
  destruct (sources st); [apply quiet_ret|].
  destruct (split_scored 0 _) as [kept to_score].
  destruct to_score; [apply quiet_ret|].
  apply quiet_bind; [apply quiet_generate_text|]. intros raw.
  destruct (parse_scores env raw);
    (apply quiet_bind; [apply quiet_lift|intros ?; apply quiet_ret]).
Qed.

Lemma quiet_synthesizer_agent s : quiet (synthesizer_agent env s).
Proof.
  unfold synthesizer_agent.
  destruct (negb _); [apply quiet_ret|].
  destruct (state_sources s); [apply quiet_ret|].
  apply quiet_bind; [apply quiet_today|]. intros t.
  apply quiet_bind; [apply quiet_generate_text|]. intros text.
  apply quiet_ret.
Qed.

(** What the agents leave alone. *)
Lemma search_agent_advances st w st' w' :
  current_step st < length (plan st) ->
  search_agent env st w = (Ok st', w') ->
  current_step st' = current_step st + 1 /\ plan st' = plan st.
Proof.
  intros Hlt Hrun.
  destruct (search_agent_inv env _ _ _ _ Hrun)
    as [(Hge & _)|(_ & query & resp & _ & _ & ->)]; [lia|].
  split; reflexivity.
Qed.

Lemma search_agent_guard st w :
  length (plan st) <= current_step st ->
  search_agent env st w = (Ok st, w).
Proof.
  intros Hge. unfold search_agent.
  replace (length (plan st) <=? current_step st) with true
    by (symmetry; apply Nat.leb_le; exact Hge).
  reflexivity.
Qed.

Lemma evaluator_agent_keeps_cursor st w st' w' :
  evaluator_agent env st w = (Ok st', w') ->
  current_step st' = current_step st /\ plan st' = plan st.
Proof.
  destruct (sources st) as [|s0 rest] eqn:Hsrc.
  - unfold evaluator_agent. rewrite Hsrc. intros [= <- _]. auto.
  - rewrite (evaluator_agent_cases env st w) by (rewrite Hsrc; discriminate).
    cbn zeta. destruct (split_scored 0 (sources st)).2.
    + intros [= <- _]. auto.
    + destruct (generate_text env _ w) as [[raw|e] w1]; [|discriminate].
      destruct (parse_scores env raw); intros [= <- _]; auto.
Qed.

Lemma synthesizer_agent_keeps_cursor st w r w' :
  synthesizer_agent env (AsObject st) w = (Ok r, w') ->
  current_step (merge_update st r) = current_step st
  /\ plan (merge_update st r) = plan st.
Proof.
  unfold synthesizer_agent.
  destruct (negb _); [intros [= <- _]; auto|].
  destruct (state_sources (AsObject st)); [intros [= <- _]; auto|].
  unfold bind, today, ret. cbn [fst snd].
  destruct (generate_text env _ _) as [[text|e] w1]; [|discriminate].
  intros [= <- _]. auto.
Qed.

(** One node execution and one step of the runtime. *)
Lemma run_graph_step limit n st w :
  run_graph env (S limit) n st w =
  match run_node env n st w with
  | (Ok st', w1) =>
      match next_node n st' with
      | None => (Ok (Some st'), w1)
      | Some n' => run_graph env limit n' st' w1
      end
  | (Raise e, w1) => (Raise e, w1)
  end.
Proof.
  cbn [run_graph]. unfold bind.
  destruct (run_node env n st w) as [[st'|e] w1]; [|reflexivity].
  destruct (next_node n st'); reflexivity.
Qed.

Lemma run_node_search st w :
  run_node env NSearch st w = search_agent env st (entered NSearch w).
Proof. reflexivity. Qed.

Lemma run_node_evaluate st w :
  run_node env NEvaluate st w = evaluator_agent env st (entered NEvaluate w).
Proof. reflexivity. Qed.

Lemma count_entered n m w :
  count_ev (is_node n) (events (entered m w))
  = (if is_node n (EvNode m) then 1 else 0) + count_ev (is_node n) (events w).
Proof. unfold entered. cbn [events]. apply count_ev_cons. Qed.

Lemma run_node_synthesize st w :
  run_node env NSynthesize st w =
  match synthesizer_agent env (AsObject st) (entered NSynthesize w) with
  | (Ok r, w1) => (Ok (merge_update st r), w1)
  | (Raise e, w1) => (Raise e, w1)
  end.
Proof.
  unfold run_node, bind, log, ret. cbn [fst snd]. fold (entered NSynthesize w).
  destruct (synthesizer_agent env _ _) as [[r|e] w1]; reflexivity.
Qed.

(** From a state with [d] plan entries left, the runtime alternates
    search and evaluate exactly [d] times and then enters synthesize,
    unless one of the agents raises on the way. *)
Lemma run_graph_search_loop d :
  forall st w limit,
    length (plan st) - current_step st = d ->
    current_step st < length (plan st) ->
    2 * d + 1 <= limit ->
    let rw := run_graph env limit NSearch st w in
    count_ev (is_node NSearch) (events rw.2)
    <= count_ev (is_node NSearch) (events w) + d
    /\ match rw.1 with
       | Ok (Some st') =>
           count_ev (is_node NSearch) (events rw.2)
           = count_ev (is_node NSearch) (events w) + d
           /\ count_ev (is_node NSynthesize) (events rw.2)
              = count_ev (is_node NSynthesize) (events w) + 1
           /\ plan st' = plan st
           /\ current_step st' = length (plan st)
       | Ok None => False
       | Raise _ => True
       end.
Proof.
  induction d as [|d IH]; intros st w limit Hd Hlt Hlimit; [lia|].
  destruct limit as [|[|[|limit]]]; try lia.
  cbn zeta. rewrite run_graph_step, run_node_search.
  pose proof (fun n => quiet_search_agent st n (entered NSearch w)) as Hq1.
  destruct (search_agent env st (entered NSearch w)) as [[st1|e1] w1] eqn:H1;
    cbn [snd] in Hq1.
  2:{ cbn [fst snd]. rewrite Hq1, count_entered. cbn. split; [lia|exact I]. }
  destruct (search_agent_advances _ _ _ _ Hlt H1) as [Hc1 Hp1].
  cbn [next_node]. rewrite run_graph_step, run_node_evaluate.
  pose proof (fun n => quiet_evaluator_agent st1 n (entered NEvaluate w1))
    as Hq2.
  destruct (evaluator_agent env st1 (entered NEvaluate w1))
    as [[st2|e2] w2] eqn:H2; cbn [snd] in Hq2.
  2:{ cbn [fst snd]. rewrite Hq2, count_entered, Hq1, count_entered. cbn.
      split; [lia|exact I]. }
  destruct (evaluator_agent_keeps_cursor _ _ _ _ H2) as [Hc2 Hp2].
  assert (HS2 : count_ev (is_node NSearch) (events w2)
                = count_ev (is_node NSearch) (events w) + 1).
  { rewrite Hq2, count_entered, Hq1, count_entered. cbn. lia. }
  assert (HY2 : count_ev (is_node NSynthesize) (events w2)
                = count_ev (is_node NSynthesize) (events w)).
  { rewrite Hq2, count_entered, Hq1, count_entered. cbn. lia. }
  cbn [next_node]. unfold should_continue.
  destruct (current_step st2 <? length (plan st2)) eqn:Hmore.
  - apply Nat.ltb_lt in Hmore.
    destruct (IH st2 w2 (S limit)) as [Hle Hres]; try lia.
    { rewrite Hc2, Hp2, Hc1, Hp1. lia. }
    cbn zeta in Hle, Hres. split; [lia|].
    destruct (run_graph env (S limit) NSearch st2 w2).1 as [[st'|]|e];
      [|exact Hres|exact I].
    destruct Hres as (HS & HY & Hp & Hc).
    rewrite HS, HY, Hp, Hc, Hp2, Hp1. repeat split; lia.
  - apply Nat.ltb_ge in Hmore.
    assert (d = 0) by (rewrite Hc2, Hp2, Hc1, Hp1 in Hmore; lia). subst d.
    rewrite run_graph_step, run_node_synthesize.
    pose proof (fun n => quiet_synthesizer_agent (AsObject st2) n
                           (entered NSynthesize w2)) as Hq3.
    destruct (synthesizer_agent env (AsObject st2) (entered NSynthesize w2))
      as [[r|e3] w3] eqn:H3; cbn [snd] in Hq3.
    + destruct (synthesizer_agent_keeps_cursor _ _ _ _ H3) as [Hc3 Hp3].
      cbn [next_node fst snd]. rewrite !Hq3, !count_entered. cbn.
      rewrite Hc3, Hp3, Hp2, Hp1. repeat split; lia.
    + cbn [fst snd]. rewrite Hq3, count_entered. cbn. split; [lia|exact I].
Qed.

(** C2 (as the code has it). A [search_agent] call made while
    [current_step < len(plan)] that returns has increased [current_step]
    by exactly 1 and left the plan alone, however many results the search
    gave; a call made with the plan exhausted returns the state
    unchanged.  Started at the search node with [current_step <
    len(plan)], the runtime enters the search node at most [len(plan) -
    current_step <= len(plan)] times: unless a search or generation call
    raises, it enters it exactly that many times, then takes the
    synthesize transition, and it does so without reaching the recursion
    limit. *)
Theorem search_loop_terminates (st : ResearchState) (w : world) (limit : nat) :
  current_step st < length (plan st) ->
  2 * (length (plan st) - current_step st) + 1 <= limit ->
  let d := length (plan st) - current_step st in
  let rw := run_graph env limit NSearch st w in
  (forall st1 w1,
     search_agent env st w = (Ok st1, w1) ->
     current_step st1 = current_step st + 1 /\ plan st1 = plan st)
  /\ (forall st0 w0,
        length (plan st0) <= current_step st0 ->
        search_agent env st0 w0 = (Ok st0, w0))
  /\ d <= length (plan st)
  /\ count_ev (is_node NSearch) (events rw.2)
     <= count_ev (is_node NSearch) (events w) + d
  /\ match rw.1 with
     | Ok (Some st') =>
         count_ev (is_node NSearch) (events rw.2)
         = count_ev (is_node NSearch) (events w) + d
         /\ count_ev (is_node NSynthesize) (events rw.2)
            = count_ev (is_node NSynthesize) (events w) + 1
         /\ plan st' = plan st
         /\ current_step st' = length (plan st)
         /\ should_continue st' = NSynthesize
     | Ok None => False
     | Raise _ => True
     end.
Proof.
  intros Hlt Hlimit. cbn zeta.
  split; [intros st1 w1; apply search_agent_advances; exact Hlt|].
  split; [apply search_agent_guard|]. split; [lia|].
  destruct (run_graph_search_loop _ st w limit eq_refl Hlt Hlimit)
    as [Hle Hres].
  cbn zeta in Hle, Hres. split; [exact Hle|].
  destruct (run_graph env limit NSearch st w).1 as [[st'|]|e];
    [|exact Hres|exact I].
  destruct Hres as (HS & HY & Hp & Hc). repeat split; try assumption.
  unfold should_continue. rewrite Hc, Hp, Nat.ltb_irrefl. reflexivity.
Qed.

Lemma planner_agent_returns st w :
  exists st' w',
    planner_agent env st w = (Ok st', w')
    /\ 0 < length (plan st') <= 4 /\ current_step st' = 0
    /\ forall n, count_ev (is_node n) (events w')
                 = count_ev (is_node n) (events w).
Proof.
  unfold planner_agent, try_except, bind.
  pose proof (fun n => quiet_generate_text (planner_prompt (topic st)) n w)
    as Hq.
  destruct (generate_text env (planner_prompt (topic st)) w)
    as [[output|e] w1]; cbn [snd] in Hq;
    (eexists _, _; split; [reflexivity|]);
    cbn [plan current_step planned set_status set_current_step set_plan].
  - pose proof (parse_plan_nonempty env (topic st) output) as Hne.
    pose proof (parse_plan_length env (topic st) output).
    apply nonempty_length in Hne. auto.
  - unfold fallback_plan. cbn [length]. split; [lia|]. auto.
Qed.

(** The whole run as main.py starts it: the recursion limit of 30 is
    never reached, and the search node is entered at most four times. *)
Lemma research_graph_invoke_within_limit st w :
  let rw := research_graph_invoke env st w in
  rw.1 <> Ok None
  /\ count_ev (is_node NSearch) (events rw.2)
     <= count_ev (is_node NSearch) (events w) + 4.
Proof.
  cbn zeta. unfold research_graph_invoke. rewrite run_graph_step.
  change (run_node env NPlanner st w)
    with (planner_agent env st (entered NPlanner w)).
  destruct (planner_agent_returns st (entered NPlanner w))
    as (st0 & w0 & -> & Hlen & Hcur & Hq).
  cbn [next_node].
  destruct (run_graph_search_loop (length (plan st0)) st0 w0 29)
    as [Hle Hres]; try lia.
  cbn zeta in Hle, Hres.
  rewrite Hq, count_entered in Hle. cbn [is_node] in Hle. split; [|lia].
  destruct (run_graph env 29 NSearch st0 w0).1 as [[?|]|?];
    [discriminate|contradiction|discriminate].
Qed.

End GraphFacts.

(** With the plan exhausted a call does not advance the cursor. *)
Lemma search_agent_does_not_always_advance :
  ~ (forall env st w st' w',
       search_agent env st w = (Ok st', w') ->
       current_step st' = current_step st + 1).
Proof.
  intros H.
  specialize (H garbled_env finished_state world0 finished_state world0 eq_refl).
  vm_compute in H. discriminate.
Qed.

Example graph_run_two_queries :
  let env := fixed_env (ApiText (lit "report")) overlapping_hits (inl []) in
  let rw := run_graph env 5 NSearch searching_state world0 in
  count_ev (is_node NSearch) (events rw.2) = 2
  /\ count_ev (is_node NEvaluate) (events rw.2) = 2
  /\ count_ev (is_node NSynthesize) (events rw.2) = 1
  /\ match rw.1 with
     | Ok (Some st') => current_step st' = 2 /\ length (sources st') = 3
     | _ => False
     end.
Proof. vm_compute. repeat split. Qed.

Lemma search_loop_terminates_witness :
  let env := fixed_env (ApiText (lit "report")) overlapping_hits (inl []) in
  let rw := run_graph env 5 NSearch searching_state world0 in
  current_step searching_state < length (plan searching_state)
  /\ count_ev (is_node NSearch) (events rw.2) <= 2.
Proof.
  cbn zeta. split; [vm_compute; lia|].
  destruct (search_loop_terminates
              (fixed_env (ApiText (lit "report")) overlapping_hits (inl []))
              searching_state world0 5) as (_ & _ & _ & Hle & _).
  - vm_compute. lia.
  - vm_compute. lia.
  - exact Hle.
Defined.

(** * Further properties *)

(** ** The generation client *)

Section GeminiMore.
Variable env : Env.

Lemma attempt_loop_recovers prompt n text k :
  forall a m delay w,
    a + m = n -> k < m ->
    (forall j, j < k ->
       rate_limited env
         (gemini_api env (count_ev is_api (events w) + j) prompt) = true) ->
    gemini_api env (count_ev is_api (events w) + k) prompt = ApiText text ->
    let rw := attempt_loop env prompt n (seq a m) delay w in
    rw.1 = Ok text
    /\ count_ev is_api (events rw.2) = count_ev is_api (events w) + S k
    /\ sleeps_of (events rw.2)
       = rev (backoff_delays delay k) ++ sleeps_of (events w).
Proof.
  induction k as [|k IH]; intros a m delay w Hn Hk Hlim Htext;
    (destruct m as [|m]; [lia|]);
    cbn zeta; change (seq a (S m)) with (a :: seq (S a) m);
    rewrite attempt_loop_cons.
  - rewrite Nat.add_0_r in Htext. rewrite Htext.
    cbn [fst snd]. rewrite count_api_attempted.
    split; [reflexivity|]. split; [lia|reflexivity].
  - pose proof (Hlim 0 ltac:(lia)) as H0. rewrite Nat.add_0_r in H0.
    destruct (gemini_api env (count_ev is_api (events w)) prompt) as [|e0];
      try discriminate.
    rewrite H0.
    replace (a <? n - 1) with true by (symmetry; apply Nat.ltb_lt; lia).
    destruct (IH (S a) m (Qmin_py (delay * 2)%Q 30%Q)
                (slept delay (attempted env prompt w))) as (Hr & Hc & Hs);
      try lia.
    + intros j Hj. rewrite count_api_slept, count_api_attempted.
      replace (S (count_ev is_api (events w)) + j)
        with (count_ev is_api (events w) + S j) by lia.
      apply Hlim. lia.
    + rewrite count_api_slept, count_api_attempted.
      replace (S (count_ev is_api (events w)) + k)
        with (count_ev is_api (events w) + S k) by lia.
      exact Htext.
    + cbn zeta in Hr, Hc, Hs. rewrite Hr, Hc, Hs.
      rewrite count_api_slept, count_api_attempted.
      split; [reflexivity|]. split; [lia|].
      cbn [backoff_delays rev]. rewrite <- app_assoc. reflexivity.
Qed.

(** X1. A call that is rate-limited [k] times and then answered, with
    [k < max_retries], returns the answer: [generate_text] makes [k + 1]
    attempts and sleeps for the first [k] back-off delays in between. *)
Theorem generate_text_recovers (prompt text : pystr) (n k : nat) (w : world) :
  k < n ->
  (forall j, j < k ->
     rate_limited env
       (gemini_api env (count_ev is_api (events w) + j) prompt) = true) ->
  gemini_api env (count_ev is_api (events w) + k) prompt = ApiText text ->
  let rw := generate_text_retries env prompt n w in
  rw.1 = Ok text
  /\ count_ev is_api (events rw.2) = count_ev is_api (events w) + k + 1
  /\ sleeps_of (events rw.2)
     = rev (backoff_delays 3%Q k) ++ sleeps_of (events (throttle env w).2).
Proof.
  intros Hk Hlim Htext. cbn zeta. rewrite generate_text_retries_unfold.
  destruct (throttle_events env w) as [_ Hcount].
  destruct (attempt_loop_recovers prompt n text k 0 n 3%Q (throttle env w).2)
    as (Hr & Hc & Hs); try lia.
  - intros j Hj. rewrite Hcount. apply Hlim, Hj.
  - rewrite Hcount. exact Htext.
  - cbn zeta in Hr, Hc, Hs. rewrite Hr, Hc, Hs, Hcount.
    split; [reflexivity|]. split; [lia|reflexivity].
Qed.

(** X2. The throttle at the head of [generate_text] reads the clock once
    and sleeps exactly when less than 2 seconds have passed since the last
    request was started, for the remainder; if the clock has not gone
    backwards that sleep is positive and at most 2.  It never raises and
    does not move [_last_request_time]. *)
Theorem throttle_sleeps_remainder (w : world) :
  let now := time_time env (count_ev is_time (events w)) in
  let elapsed := (now - last_request_time w)%Q in
  let rw := throttle env w in
  rw.1 = Ok tt
  /\ last_request_time rw.2 = last_request_time w
  /\ ((elapsed < 2)%Q ->
      events rw.2 = EvSleep (2 - elapsed)%Q :: EvTime :: events w
      /\ ((last_request_time w <= now)%Q ->
          (0 < 2 - elapsed)%Q /\ (2 - elapsed <= 2)%Q))
  /\ ((2 <= elapsed)%Q -> events rw.2 = EvTime :: events w).
Proof.
  cbn zeta.
  unfold throttle, bind, read_clock, get_last_request_time, sleep, log, ret.
  cbn [fst snd events last_request_time]. unfold _min_request_interval.
  set (now := time_time env (count_ev is_time (events w))).
  destruct (Qltb (now - last_request_time w) 2) eqn:E;
    cbn [fst snd events last_request_time].
  - apply Qltb_lt in E.
    split; [reflexivity|]. split; [reflexivity|]. split.
    + intros _. split; [reflexivity|]. intros Hmono. split; lra.
    + intros Hge. lra.
  - apply Qltb_ge in E.
    split; [reflexivity|]. split; [reflexivity|]. split.
    + intros Hlt. lra.
    + intros _. reflexivity.
Qed.

Lemma rate_limit_msg_mentions :
  lower_on_ascii env -> mentions_rate_limit env rate_limit_msg = true.
Proof.
  intros Hlower. unfold mentions_rate_limit.
  rewrite Hlower by (vm_compute; reflexivity).
  vm_compute. reflexivity.
Qed.

(** X3. [generate_text_with_fallback] turns the exhaustion of the
    rate-limit retries into a normal return: the caller's fallback text
    if one was given (and is non-empty), the fixed notice otherwise.  A
    returned text is passed through; a [RuntimeError] that does not
    mention a rate limit is raised again, and an error that is not a
    [RuntimeError] (such as a client error that is not a rate limit)
    propagates untouched. *)
Theorem generate_text_with_fallback_contract (prompt : pystr)
    (fallback_response : option pystr) (w : world) :
  lower_on_ascii env ->
  let inner := generate_text env prompt w in
  let rw := generate_text_with_fallback env prompt fallback_response w in
  rw.2 = inner.2
  /\ (forall text, inner.1 = Ok text -> rw.1 = Ok text)
  /\ (inner.1 = Raise (RuntimeError rate_limit_msg) ->
      rw.1 = Ok (if falsy fallback_response then rate_limit_reached_msg
                 else default [] fallback_response))
  /\ (forall msg, inner.1 = Raise (RuntimeError msg) ->
      mentions_rate_limit env msg = false ->
      rw.1 = Raise (RuntimeError msg))
  /\ (forall e, inner.1 = Raise e ->
      (forall msg, e <> RuntimeError msg) -> rw.1 = Raise e)
  /\ rw.1 <> Raise (RuntimeError rate_limit_msg).
Proof.
  intros Hlower. cbn zeta. unfold generate_text_with_fallback, try_except.
  pose proof (rate_limit_msg_mentions Hlower) as Hmention.
  destruct (generate_text env prompt w) as [[text|e] w1]; cbn [fst snd].
  - split; [reflexivity|]. split; [auto|].
    repeat (split; [discriminate|]). discriminate.
  - destruct e as [msg|msg|msg|msg|msg]; cbn [fst snd];
      try (split; [reflexivity|]; split; [discriminate|];
           split; [discriminate|]; split; [discriminate|];
           split; [intros ? [= <-] _; reflexivity|];
           discriminate).
    destruct (mentions_rate_limit env msg) eqn:Hm.
    + destruct (falsy fallback_response); cbn [fst snd ret];
        (split; [reflexivity|]; split; [discriminate|];
         split; [intros _; reflexivity|];
         split; [intros ? [= <-] Hno; congruence|];
         split; [intros e [= <-] Hne; exfalso; eapply Hne; reflexivity|];
         discriminate).
    + cbn [fst snd raise].
      split; [reflexivity|]. split; [discriminate|].
      split; [intros [= ->]; congruence|].
      split; [intros ? [= <-] _; reflexivity|].
      split; [intros e [= <-] _; reflexivity|].
      intros [= ->]. congruence.
Qed.

End GeminiMore.

Lemma generate_text_recovers_witness :
  let rw := generate_text (flaky_env 2) (lit "q") world0 in
  rw.1 = Ok (lit "ok")
  /\ count_ev is_api (events rw.2) = 3
  /\ sleeps_of (events rw.2) = [6; 3; 2]%Q.
Proof.
  cbn zeta.
  destruct (generate_text_recovers (flaky_env 2) (lit "q") (lit "ok") 3 2
              world0) as (Hr & Hc & Hs).
  - lia.
  - intros j Hj. destruct j as [|[|j]]; [reflexivity|reflexivity|lia].
  - reflexivity.
  - unfold generate_text. cbn zeta in Hr, Hc, Hs. rewrite Hr, Hc, Hs.
    split; [reflexivity|]. split; reflexivity.
Defined.

Lemma generate_text_with_fallback_witness :
  let env := lower_env quota_error [] (inl []) in
  lower_on_ascii env
  /\ (generate_text_with_fallback env (lit "q") (Some (lit "later")) world0).1
     = Ok (lit "later")
  /\ (generate_text_with_fallback env (lit "q") None world0).1
     = Ok rate_limit_reached_msg.
Proof.
  cbn zeta.
  assert (Hlower : lower_on_ascii (lower_env quota_error [] (inl [])))
    by (intros s _; reflexivity).
  split; [exact Hlower|].
  split.
  - destruct (generate_text_with_fallback_contract
                (lower_env quota_error [] (inl [])) (lit "q")
                (Some (lit "later")) world0 Hlower) as (_ & _ & H & _).
    cbn zeta in H. rewrite H; [reflexivity|vm_compute; reflexivity].
  - destruct (generate_text_with_fallback_contract
                (lower_env quota_error [] (inl [])) (lit "q")
                None world0 Hlower) as (_ & _ & H & _).
    cbn zeta in H. rewrite H; [reflexivity|vm_compute; reflexivity].
Defined.

(** ** The Planner *)

Section PlannerMore.
Variable env : Env.

Lemma lstrip_by_suffix p s : exists pre, s = pre ++ lstrip_by p s.
Proof.
  induction s as [|c s IH]; [exists []; reflexivity|].
  cbn [lstrip_by]. destruct (p c); [|exists []; reflexivity].
  destruct IH as [pre Hpre]. exists (c :: pre). cbn. congruence.
Qed.

Lemma lstrip_by_head p s c rest : lstrip_by p s = c :: rest -> p c = false.
Proof.
  induction s as [|d s IH]; [discriminate|].
  cbn [lstrip_by]. destruct (p d) eqn:E; [exact IH|].
  intros [= <- _]. exact E.
Qed.

Lemma lstrip_by_snoc p l c :
  p c = false -> lstrip_by p (l ++ [c]) = lstrip_by p l ++ [c].
Proof.
  intros Hc. induction l as [|d l IH]; cbn [lstrip_by app].
  - rewrite Hc. reflexivity.
  - destruct (p d); [exact IH|reflexivity].
Qed.

Lemma rstrip_by_last p s pre c : rstrip_by p s = pre ++ [c] -> p c = false.
Proof.
  unfold rstrip_by. intros H.
  apply (f_equal (@rev N)) in H. rewrite rev_involutive, rev_app_distr in H.
  cbn in H. eapply lstrip_by_head. exact H.
Qed.

Lemma rstrip_by_cons p c s :
  p c = false -> rstrip_by p (c :: s) = c :: rstrip_by p s.
Proof.
  intros Hc. unfold rstrip_by. cbn [rev].
  rewrite (lstrip_by_snoc p (rev s) c Hc), rev_app_distr. reflexivity.
Qed.

Lemma py_strip_trimmed s :
  no_leading_space env (py_strip env s)
  /\ no_trailing_space env (py_strip env s).
Proof.
  unfold py_strip, strip_by. split.
  - intros c rest H.
    destruct (lstrip_by (isspace env) s) as [|d t] eqn:E.
    + cbv in H. discriminate.
    + pose proof (lstrip_by_head _ _ _ _ E) as Hd.
      rewrite (rstrip_by_cons _ _ _ Hd) in H. injection H as <- _. exact Hd.
  - intros pre c H. eapply rstrip_by_last. exact H.
Qed.

Lemma suffix_no_trailing_space s pre step :
  no_trailing_space env s -> s = pre ++ step -> no_trailing_space env step.
Proof.
  intros Hs -> pre' c ->. apply (Hs (pre ++ pre') c).
  rewrite app_assoc. reflexivity.
Qed.

(** What the first parsing pass collects. *)
Lemma numbered_steps_spec lines :
  Forall (fun step =>
            (exists c rest, step = c :: rest
                            /\ mem_char numbering_chars c = false)
            /\ no_trailing_space env step
            /\ exists line pre,
                 line ∈ lines /\ is_list_line env (py_strip env line) = true
                 /\ py_strip env line = pre ++ step)
         (numbered_steps env lines).
Proof.
  induction lines as [|line lines IH]; cbn [numbered_steps]; [constructor|].
  assert (Hrest : Forall (fun step =>
            (exists c rest, step = c :: rest
                            /\ mem_char numbering_chars c = false)
            /\ no_trailing_space env step
            /\ exists line' pre,
                 line' ∈ line :: lines
                 /\ is_list_line env (py_strip env line') = true
                 /\ py_strip env line' = pre ++ step)
         (numbered_steps env lines)).
  { eapply Forall_impl; [exact IH|]. cbn beta.
    intros step (H1 & H2 & l & pre & Hin & H3). split; [exact H1|].
    split; [exact H2|]. exists l, pre. split; [right; exact Hin|exact H3]. }
  destruct (is_list_line env (py_strip env line)) eqn:Hlist; [|exact Hrest].
  destruct (lstrip_by (mem_char numbering_chars) (py_strip env line))
    as [|c rest] eqn:Hclean; [exact Hrest|].
  constructor; [|exact Hrest].
  destruct (lstrip_by_suffix (mem_char numbering_chars) (py_strip env line))
    as [pre Hpre]. rewrite Hclean in Hpre.
  split; [exists c, rest; split; [reflexivity|];
          eapply lstrip_by_head; exact Hclean|].
  split.
  - eapply suffix_no_trailing_space; [|exact Hpre].
    apply py_strip_trimmed.
  - exists line, pre. split; [left|]. auto.
Qed.

Lemma nonblank_lines_spec lines :
  Forall (fun step =>
            step <> [] /\ no_leading_space env step
            /\ no_trailing_space env step
            /\ exists line, line ∈ lines /\ step = py_strip env line)
         (nonblank_lines env lines).
Proof.
  induction lines as [|line lines IH]; cbn [nonblank_lines]; [constructor|].
  assert (Hrest : Forall (fun step =>
            step <> [] /\ no_leading_space env step
            /\ no_trailing_space env step
            /\ exists line', line' ∈ line :: lines
                             /\ step = py_strip env line')
         (nonblank_lines env lines)).
  { eapply Forall_impl; [exact IH|]. cbn beta.
    intros step (H1 & H2 & H3 & l & Hin & H4). repeat (split; [assumption|]).
    exists l. split; [right; exact Hin|exact H4]. }
  destruct (py_strip env line) as [|c rest] eqn:E; [exact Hrest|].
  constructor; [|exact Hrest]. rewrite <- E.
  split; [rewrite E; discriminate|].
  destruct (py_strip_trimmed line) as [Hl Ht].
  split; [exact Hl|]. split; [exact Ht|].
  exists line. split; [left|reflexivity].
Qed.

Lemma lit_app_nonempty (prefix : pystr) topic :
  prefix <> [] -> prefix ++ topic <> [].
Proof. destruct prefix; [contradiction|discriminate]. Qed.

Lemma parse_plan_steps_nonempty topic output :
  Forall (fun step => step <> []) (parse_plan env topic output).
Proof.
  unfold parse_plan.
  assert (Hsel : Forall (fun step : pystr => step <> [])
            match numbered_steps env (split_lines output) with
            | [] => nonblank_lines env (split_lines output)
            | _ :: _ => numbered_steps env (split_lines output)
            end).
  { destruct (numbered_steps env (split_lines output)) eqn:E.
    - eapply Forall_impl; [apply nonblank_lines_spec|]. cbn beta. tauto.
    - rewrite <- E. eapply Forall_impl; [apply numbered_steps_spec|].
      cbn beta. intros step ((c & rest & -> & _) & _). discriminate. }
  apply (Forall_take _ 4) in Hsel.
  destruct (take 4 _); [|exact Hsel].
  unfold default_steps.
  repeat constructor; apply lit_app_nonempty; vm_compute; discriminate.
Qed.

(** X4. When the generation call returns, the Planner stores the parsed
    plan (with the cursor at 0 and a status naming its length) and
    changes nothing else: topic, sources and report are as before, and
    the only effects are those of that one call.  Every query of the plan
    is a non-empty string, also when the call raised and the fallback
    plan was stored. *)
Theorem planner_agent_result (st : ResearchState) (w : world) :
  forall st' w',
    planner_agent env st w = (Ok st', w') ->
    Forall (fun query => query <> []) (plan st')
    /\ topic st' = topic st /\ sources st' = sources st
    /\ report st' = report st
    /\ w' = (generate_text env (planner_prompt (topic st)) w).2
    /\ (forall output,
          (generate_text env (planner_prompt (topic st)) w).1 = Ok output ->
          plan st' = parse_plan env (topic st) output
          /\ status st'
             = Some (lit "Created plan with " ++ str_of_nat (length (plan st'))
                     ++ lit " steps")).
Proof.
  intros st' w'. unfold planner_agent, try_except, bind.
  destruct (generate_text env (planner_prompt (topic st)) w)
    as [[output|e] w1]; unfold ret; intros [= <- <-];
    cbn [plan topic sources report status planned set_status
         set_current_step set_plan fst snd].
  - split; [apply parse_plan_steps_nonempty|]. repeat (split; [reflexivity|]).
    intros output' [= <-]. auto.
  - split.
    + unfold fallback_plan.
      repeat constructor; apply lit_app_nonempty; vm_compute; discriminate.
    + repeat (split; [reflexivity|]). intros output' [=].
Qed.

(** X5. Numbered or bulleted lines take priority: as soon as one of them
    leaves text after its numbering is stripped, the plan is the first
    four such remainders in order, and every other line (a preamble, a
    closing remark) is ignored.  Each query is what is left of a stripped
    list line after its leading digits, dots, dashes, bullets, closing
    parentheses, spaces and tabs: it begins with none of these and does
    not end in whitespace. *)
Theorem parse_plan_numbered (topic output : pystr) :
  numbered_steps env (split_lines output) <> [] ->
  parse_plan env topic output
  = take 4 (numbered_steps env (split_lines output))
  /\ Forall (fun step =>
               (exists c rest, step = c :: rest
                               /\ mem_char numbering_chars c = false)
               /\ no_trailing_space env step
               /\ exists line pre,
                    line ∈ split_lines output
                    /\ is_list_line env (py_strip env line) = true
                    /\ py_strip env line = pre ++ step)
            (parse_plan env topic output).
Proof.
  intros Hne. unfold parse_plan.
  destruct (numbered_steps env (split_lines output)) as [|s0 rest] eqn:E;
    [contradiction|].
  rewrite <- E. cbn [take].
  assert (Htake : take 4 (numbered_steps env (split_lines output))
                  = s0 :: take 3 rest) by (rewrite E; reflexivity).
  rewrite Htake. split; [reflexivity|]. rewrite <- Htake.
  apply Forall_take, numbered_steps_spec.
Qed.

(** X6. When no line qualifies as a list line with text after its
    numbering, but some line is non-blank, the plan is the first four
    non-blank lines of the output, each stripped: no query is empty or
    begins or ends in whitespace. *)
Theorem parse_plan_plain_lines (topic output : pystr) :
  numbered_steps env (split_lines output) = [] ->
  nonblank_lines env (split_lines output) <> [] ->
  parse_plan env topic output
  = take 4 (nonblank_lines env (split_lines output))
  /\ Forall (fun step =>
               step <> [] /\ no_leading_space env step
               /\ no_trailing_space env step
               /\ exists line,
                    line ∈ split_lines output /\ step = py_strip env line)
            (parse_plan env topic output).
Proof.
  intros Hnone Hne. unfold parse_plan. rewrite Hnone.
  destruct (nonblank_lines env (split_lines output)) as [|s0 rest] eqn:E;
    [contradiction|].
  rewrite <- E.
  assert (Htake : take 4 (nonblank_lines env (split_lines output))
                  = s0 :: take 3 rest) by (rewrite E; reflexivity).
  rewrite Htake. split; [reflexivity|]. rewrite <- Htake.
  apply Forall_take, nonblank_lines_spec.
Qed.

End PlannerMore.

Lemma planner_agent_result_witness :
  exists st' w',
    planner_agent (replying_env numbered_reply) (state0 (lit "energy")) world0
    = (Ok st', w')
    /\ Forall (fun query => query <> []) (plan st')
    /\ plan st' = [lit "solar cells"; lit "wind power"].
Proof.
  eexists _, _. split; [vm_compute; reflexivity|].
  split; [|vm_compute; reflexivity].
  eapply proj1.
  eapply (planner_agent_result (replying_env numbered_reply)
            (state0 (lit "energy")) world0).
  vm_compute. reflexivity.
Defined.

Lemma parse_plan_numbered_witness :
  parse_plan (replying_env numbered_reply) (lit "energy") numbered_reply
  = [lit "solar cells"; lit "wind power"].
Proof.
  destruct (parse_plan_numbered (replying_env numbered_reply) (lit "energy")
              numbered_reply) as [-> _].
  - vm_compute. discriminate.
  - vm_compute. reflexivity.
Defined.

Lemma parse_plan_plain_lines_witness :
  parse_plan (replying_env plain_reply) (lit "energy") plain_reply
  = [lit "solar cells"; lit "wind power"].
Proof.
  destruct (parse_plan_plain_lines (replying_env plain_reply) (lit "energy")
              plain_reply) as [-> _].
  - vm_compute. reflexivity.
  - vm_compute. discriminate.
  - vm_compute. reflexivity.
Defined.

(** ** The Searcher *)

Section SearcherMore.
Variable env : Env.

(** What the loop appends and what it leaves out. *)
Lemma add_results_detail results :
  forall (seen : gset pystr) (srcs : list source),
    exists added,
      add_results results seen srcs = srcs ++ added
      /\ Forall (fun s =>
                   (url s ∉ seen) /\ source_type s = lit "tavily"
                   /\ score s = None /\ eval_error s = None
                   /\ exists r, r ∈ results /\ r_url r = Some (url s)
                                /\ content s
                                   = take 4000 (default [] (r_content r)))
                added
      /\ (forall r u, r ∈ results -> r_url r = Some u -> u <> [] ->
                      u ∈ seen \/ u ∈ url <$> added).
Proof.
  induction results as [|r rest IH]; intros seen srcs.
  - exists []. cbn. rewrite app_nil_r. split; [reflexivity|].
    split; [constructor|]. intros r u Hin. inversion Hin.
  - cbn [add_results].
    assert (Hskip :
               (forall u, r_url r = Some u -> u <> [] -> u ∈ seen) ->
               exists added,
                 add_results rest seen srcs = srcs ++ added
                 /\ Forall (fun s =>
                      (url s ∉ seen) /\ source_type s = lit "tavily"
                      /\ score s = None /\ eval_error s = None
                      /\ exists r0, r0 ∈ r :: rest /\ r_url r0 = Some (url s)
                           /\ content s
                              = take 4000 (default [] (r_content r0)))
                      added
                 /\ (forall r0 u, r0 ∈ r :: rest -> r_url r0 = Some u ->
                                  u <> [] -> u ∈ seen \/ u ∈ url <$> added)).
    { intros Hu. destruct (IH seen srcs) as (added & Heq & Hall & Hcov).
      exists added. split; [exact Heq|]. split.
      - eapply Forall_impl; [exact Hall|]. cbn beta.
        intros s (H1 & H2 & H3 & H4 & r0 & Hin & H5).
        repeat (split; [assumption|]). exists r0. split; [right|]; assumption.
      - intros r0 u Hin Hurl Hne. apply elem_of_cons in Hin.
        destruct Hin as [->|Hin]; [|eapply Hcov; eassumption].
        left. apply (Hu u Hurl Hne). }
    destruct (r_url r) as [[|c u]|] eqn:Hurl.
    + apply Hskip. intros v [= <-] Hne. contradiction.
    + destruct (decide (c :: u ∈ seen)) as [Hin|Hnotin].
      * apply Hskip. intros v [= <-] _. exact Hin.
      * set (new := Source (c :: u) (take 4000 (default [] (r_content r)))
                      (lit "tavily") None None).
        destruct (IH ({[c :: u]} ∪ seen) (srcs ++ [new]))
          as (added & Heq & Hall & Hcov).
        exists (new :: added). rewrite Heq, <- app_assoc.
        split; [reflexivity|]. split.
        -- constructor.
           ++ split; [exact Hnotin|]. repeat (split; [reflexivity|]).
              exists r. split; [left|]. split; [exact Hurl|reflexivity].
           ++ eapply Forall_impl; [exact Hall|]. cbn beta.
              intros s (H1 & H2 & H3 & H4 & r0 & Hin & H5).
              split; [intros Hs; apply H1, elem_of_union_r, Hs|].
              repeat (split; [assumption|]).
              exists r0. split; [right|]; assumption.
        -- intros r0 v Hin Hv Hne. apply elem_of_cons in Hin.
           destruct Hin as [->|Hin].
           ++ right. rewrite Hurl in Hv. injection Hv as <-. left.
           ++ destruct (Hcov r0 v Hin Hv Hne) as [Hs|Ha].
              ** apply elem_of_union in Hs. destruct Hs as [Hs|Hs]; [|auto].
                 apply elem_of_singleton in Hs. subst v. right. left.
              ** right. right. exact Ha.
    + apply Hskip. intros v [=].
Qed.

Lemma seen_urls_elem srcs u : u ∈ seen_urls srcs <-> u ∈ url <$> srcs.
Proof. unfold seen_urls. apply elem_of_list_to_set. Qed.

(** X7. The Tavily key is only looked at when a step is left to run:
    without a key (unset or empty) such a call raises the
    [EnvironmentError] before any search is issued and leaves the world
    as it was, while a call on an exhausted plan still returns the state
    unchanged. *)
Theorem search_agent_missing_key (st : ResearchState) (w : world) :
  falsy (tavily_api_key env) = true ->
  (current_step st < length (plan st) ->
   search_agent env st w
   = (Raise (EnvironmentError (lit "Missing TAVILY_API_KEY")), w))
  /\ (length (plan st) <= current_step st ->
      search_agent env st w = (Ok st, w)).
Proof.
  intros Hkey. unfold search_agent. rewrite Hkey. split; intros H.
  - replace (length (plan st) <=? current_step st) with false
      by (symmetry; apply Nat.leb_gt; exact H).
    reflexivity.
  - replace (length (plan st) <=? current_step st) with true
      by (symmetry; apply Nat.leb_le; exact H).
    reflexivity.
Qed.

(** X8. A call with a step left that returns has issued exactly one
    search, for the query [plan[current_step]], and has only appended to
    [sources].  Each appended record carries a url that was not in
    [sources] before, the tag "tavily", no score and no eval_error, and
    the content of a result with that url cut to at most 4000
    characters; and no result is lost: every non-empty url among the
    results is the url of some source afterwards. *)
Theorem search_agent_appends (st : ResearchState) (w : world) :
  current_step st < length (plan st) ->
  forall st' w',
    search_agent env st w = (Ok st', w') ->
    exists query resp added,
      plan st !! current_step st = Some query
      /\ tavily_search env (count_ev is_search (events w)) query = Ok resp
      /\ events w' = EvSearch query :: events w
      /\ sources st' = sources st ++ added
      /\ Forall (fun s =>
                   (url s ∉ (url <$> sources st))
                   /\ source_type s = lit "tavily"
                   /\ score s = None /\ eval_error s = None
                   /\ length (content s) <= 4000
                   /\ exists r, r ∈ results_of resp
                                /\ r_url r = Some (url s)
                                /\ content s
                                   = take 4000 (default [] (r_content r)))
                added
      /\ (forall r u, r ∈ results_of resp -> r_url r = Some u -> u <> [] ->
                      u ∈ url <$> sources st').
Proof.
  intros Hlt st' w'. unfold search_agent.
  replace (length (plan st) <=? current_step st) with false
    by (symmetry; apply Nat.leb_gt; exact Hlt).
  destruct (falsy (tavily_api_key env)); [discriminate|].
  destruct (plan st !! current_step st) as [query|]; [|discriminate].
  unfold bind, client_search, ret.
  destruct (tavily_search env _ query) as [resp|e] eqn:Hsearch; [|discriminate].
  intros [= <- <-].
  destruct (add_results_detail (results_of resp) (seen_urls (sources st))
              (sources st)) as (added & Heq & Hall & Hcov).
  exists query, resp, added. cbn [sources set_current_step set_sources events].
  split; [reflexivity|]. split; [exact Hsearch|]. split; [reflexivity|].
  split; [exact Heq|]. split.
  - eapply Forall_impl; [exact Hall|]. cbn beta.
    intros s (H1 & H2 & H3 & H4 & r & Hin & Hurl & Hc).
    split; [rewrite <- seen_urls_elem; exact H1|].
    repeat (split; [assumption|]).
    split; [rewrite Hc, length_take; lia|]. eauto.
  - intros r u Hin Hurl Hne. rewrite Heq, fmap_app. apply elem_of_app.
    destruct (Hcov r u Hin Hurl Hne) as [Hs|Ha]; [left|right; exact Ha].
    apply seen_urls_elem, Hs.
Qed.

Lemma add_results_nothing_new results :
  forall (seen : gset pystr) (srcs : list source),
    Forall (fun r => falsy (r_url r) = true
                     \/ exists u, r_url r = Some u /\ u ∈ seen) results ->
    add_results results seen srcs = srcs.
Proof.
  induction results as [|r rest IH]; intros seen srcs Hall; [reflexivity|].
  inversion Hall as [|? ? Hr Hrest]; subst. cbn [add_results].
  destruct (r_url r) as [[|c u]|]; [apply IH, Hrest| |apply IH, Hrest].
  destruct Hr as [Hf|(v & [= <-] & Hin)]; [discriminate|].
  destruct (decide (c :: u ∈ seen)); [apply IH, Hrest|contradiction].
Qed.

(** X9. A search that brings nothing new leaves [sources] as it was:
    that is so when the response is not a dict or has no results, and
    when every result lacks a url or repeats one already in [sources].
    The cursor advances all the same. *)
Theorem search_agent_nothing_new (st : ResearchState) (w : world) :
  current_step st < length (plan st) ->
  forall st' w' query,
    plan st !! current_step st = Some query ->
    search_agent env st w = (Ok st', w') ->
    (forall resp,
       tavily_search env (count_ev is_search (events w)) query = Ok resp ->
       Forall (fun r => falsy (r_url r) = true
                        \/ exists u, r_url r = Some u
                                     /\ u ∈ url <$> sources st)
              (results_of resp)) ->
    sources st' = sources st
    /\ current_step st' = current_step st + 1
    /\ results_of RespOther = [] /\ results_of (RespDict None) = [].
Proof.
  intros Hlt st' w' query Hq. unfold search_agent.
  replace (length (plan st) <=? current_step st) with false
    by (symmetry; apply Nat.leb_gt; exact Hlt).
  destruct (falsy (tavily_api_key env)); [discriminate|].
  rewrite Hq. unfold bind, client_search, ret.
  destruct (tavily_search env _ query) as [resp|e]; [|discriminate].
  intros [= <- <-] Hnothing.
  cbn [sources current_step set_current_step set_sources].
  rewrite add_results_nothing_new; [auto|].
  eapply Forall_impl; [apply (Hnothing resp eq_refl)|]. cbn beta.
  intros r [Hf|(u & Hu & Hin)]; [left; exact Hf|right].
  exists u. split; [exact Hu|]. apply seen_urls_elem, Hin.
Qed.

End SearcherMore.

Lemma search_agent_missing_key_witness :
  search_agent (keyless_env garbled_env) searching_state world0
  = (Raise (EnvironmentError (lit "Missing TAVILY_API_KEY")), world0)
  /\ search_agent (keyless_env garbled_env) finished_state world0
     = (Ok finished_state, world0).
Proof.
  destruct (search_agent_missing_key (keyless_env garbled_env)
              searching_state world0 eq_refl) as [Hraise _].
  destruct (search_agent_missing_key (keyless_env garbled_env)
              finished_state world0 eq_refl) as [_ Hnoop].
  split; [apply Hraise; vm_compute; lia|apply Hnoop; vm_compute; lia].
Defined.

Lemma search_agent_appends_witness :
  let env := fixed_env quota_error overlapping_hits (inl []) in
  exists st' w' added,
    search_agent env searching_state world0 = (Ok st', w')
    /\ events w' = [EvSearch (lit "q1")]
    /\ sources st' = sources searching_state ++ added
    /\ Forall (fun s => score s = None /\ length (content s) <= 4000) added.
Proof.
  cbn zeta.
  destruct (search_agent (fixed_env quota_error overlapping_hits (inl []))
              searching_state world0) as [[st'|e] w'] eqn:Hrun;
    [|vm_compute in Hrun; discriminate].
  destruct (search_agent_appends
              (fixed_env quota_error overlapping_hits (inl []))
              searching_state world0 ltac:(vm_compute; lia) st' w' Hrun)
    as (query & resp & added & Hq & _ & Hev & Hsrc & Hall & _).
  exists st', w', added. split; [reflexivity|].
  vm_compute in Hq. injection Hq as <-.
  split; [exact Hev|]. split; [exact Hsrc|].
  eapply Forall_impl; [exact Hall|]. cbn beta. tauto.
Defined.

Lemma search_agent_nothing_new_witness :
  let env := fixed_env quota_error [hit "http://a" "again"] (inl []) in
  exists st' w',
    search_agent env searching_state world0 = (Ok st', w')
    /\ sources st' = sources searching_state
    /\ current_step st' = 1.
Proof.
  cbn zeta.
  destruct (search_agent (fixed_env quota_error [hit "http://a" "again"]
                            (inl []))
              searching_state world0) as [[st'|e] w'] eqn:Hrun;
    [|vm_compute in Hrun; discriminate].
  destruct (search_agent_nothing_new
              (fixed_env quota_error [hit "http://a" "again"] (inl []))
              searching_state world0 ltac:(vm_compute; lia) st' w' (lit "q1")
              eq_refl Hrun) as (Hsrc & Hstep & _).
  - intros resp [= <-]. constructor; [|constructor].
    right. exists (lit "http://a"). split; [reflexivity|]. left.
  - exists st', w'. auto.
Defined.

(** ** The Evaluator *)

Section EvaluatorMore.
Variable env : Env.

Lemma already_scored_all srcs :
  forallb has_score srcs = true -> already_scored srcs = srcs.
Proof.
  unfold already_scored. induction srcs as [|s rest IH]; [reflexivity|].
  cbn [forallb List.filter]. intros [Hs Hrest]%andb_prop.
  rewrite Hs, IH by exact Hrest. reflexivity.
Qed.

Lemma split_scored_all i srcs :
  forallb has_score srcs = true -> (split_scored i srcs).2 = [].
Proof.
  revert i. induction srcs as [|s rest IH]; intros i; [reflexivity|].
  cbn [forallb split_scored]. unfold has_score at 1.
  intros [Hs Hrest]%andb_prop. specialize (IH (S i) Hrest).
  destruct (split_scored (S i) rest) as [kept to_score].
  destruct (score s); [exact IH|discriminate].
Qed.

Lemma set_sources_same st : set_sources st (sources st) = st.
Proof. destruct st; reflexivity. Qed.

Lemma nil_or_not {A} (l : list A) : l = [] \/ l <> [].
Proof. destruct l; [left; reflexivity|right; discriminate]. Qed.

Lemma evaluator_agent_all_scored st w :
  forallb has_score (sources st) = true ->
  evaluator_agent env st w = (Ok st, w).
Proof.
  intros Hall. destruct (sources st) as [|s0 rest] eqn:Hsrc.
  - unfold evaluator_agent. rewrite Hsrc. reflexivity.
  - rewrite <- Hsrc in Hall.
    rewrite (evaluator_agent_cases env st w) by (rewrite Hsrc; discriminate).
    cbn zeta. rewrite (split_scored_all 0 _ Hall).
    rewrite (already_scored_all _ Hall), set_sources_same. reflexivity.
Qed.

Lemma generate_text_api_bound prompt w :
  count_ev is_api (events (generate_text env prompt w).2)
  <= count_ev is_api (events w) + 3.
Proof.
  unfold generate_text. rewrite generate_text_retries_unfold.
  etransitivity; [apply attempt_loop_api_bound|].
  destruct (throttle_events env w) as [_ ->]. rewrite length_seq. lia.
Qed.

(** X10. The Evaluator calls the model exactly when some source lacks a
    score.  With nothing to score (no sources at all, or every source
    already scored) it returns the state as it is and has no effect;
    with an unscored source it makes one [generate_text] call, that is
    between one and three API attempts. *)
Theorem evaluator_agent_calls_model_iff (st : ResearchState) (w : world) :
  (forallb has_score (sources st) = true ->
   evaluator_agent env st w = (Ok st, w))
  /\ (forallb has_score (sources st) = false ->
      let w' := (evaluator_agent env st w).2 in
      count_ev is_api (events w) < count_ev is_api (events w')
      /\ count_ev is_api (events w') <= count_ev is_api (events w) + 3).
Proof.
  split; [apply evaluator_agent_all_scored|].
  intros Hsome. cbn zeta.
  assert (Hne : sources st <> []).
  { intros E. rewrite E in Hsome. discriminate. }
  pose proof (split_scored_none 0 _ Hsome) as Hts.
  rewrite (evaluator_agent_cases env st w Hne). cbn zeta.
  destruct (split_scored 0 (sources st)).2 as [|item items]; [contradiction|].
  match goal with
  | |- context [generate_text env ?p w] =>
      pose proof (generate_text_calls_api env p w) as Hlo;
      pose proof (generate_text_api_bound p w) as Hhi;
      destruct (generate_text env p w) as [[raw|e] w1]
  end; cbn [snd] in *; [|auto].
  destruct (parse_scores env raw); cbn [snd]; auto.
Qed.

Lemma bfilter_submseteq {A} (p : A -> bool) l : List.filter p l ⊆+ l.
Proof.
  induction l as [|x l IH]; cbn; [constructor|].
  destruct (p x); [apply submseteq_skip, IH|apply submseteq_cons, IH].
Qed.

Lemma filter_or_top3_submseteq kept : filter_or_top3 kept ⊆+ kept.
Proof.
  unfold filter_or_top3.
  destruct (List.filter credible kept) eqn:E.
  - etransitivity; [apply submseteq_take|].
    apply Permutation_submseteq, sorted_desc_perm.
  - rewrite <- E. apply bfilter_submseteq.
Qed.

Lemma has_score_forall srcs :
  forallb has_score srcs = true <-> Forall (fun s => has_score s = true) srcs.
Proof.
  induction srcs as [|s rest IH]; cbn [forallb].
  - split; [constructor|reflexivity].
  - rewrite andb_true_iff, IH. split.
    + intros [? ?]. constructor; assumption.
    + inversion 1; auto.
Qed.

Lemma newly_scored_forall (P : source -> Prop) body i srcs :
  (forall j s, s ∈ srcs -> has_score s = false -> P (body j s)) ->
  Forall P (newly_scored body i srcs).
Proof.
  revert i. induction srcs as [|s rest IH]; intros i Hbody; [constructor|].
  cbn [newly_scored].
  assert (Hrest : Forall P (newly_scored body (S i) rest)).
  { apply IH. intros j s' Hin. apply Hbody. right. exact Hin. }
  destruct (has_score s) eqn:E; [exact Hrest|].
  constructor; [apply Hbody; [left|exact E]|exact Hrest].
Qed.

Lemma kept_after_forall (P : source -> Prop) body srcs :
  (forall s, s ∈ srcs -> has_score s = true -> P s) ->
  (forall j s, s ∈ srcs -> has_score s = false -> P (body j s)) ->
  Forall P (kept_after body srcs).
Proof.
  intros Hold Hnew. unfold kept_after. apply Forall_app. split.
  - unfold already_scored. rewrite Forall_forall. intros s Hs.
    apply list_elem_of_In, filter_In in Hs. destruct Hs as [Hin Hsc].
    apply Hold; [apply list_elem_of_In, Hin|exact Hsc].
  - apply newly_scored_forall, Hnew.
Qed.

Lemma submseteq_forall {A} (P : A -> Prop) (l k : list A) :
  l ⊆+ k -> Forall P k -> Forall P l.
Proof.
  intros Hsub Hk. rewrite Forall_forall in Hk |- *.
  intros x Hx. apply Hk. eapply elem_of_submseteq; eassumption.
Qed.

(** Every outcome of a returning call, as a sub-multiset of a list of
    kept records. *)
Lemma evaluator_agent_result_kept st w st' w' :
  evaluator_agent env st w = (Ok st', w') ->
  (sources st = [] /\ st' = st)
  \/ exists body,
       sources st' ⊆+ kept_after body (sources st)
       /\ st' = set_sources st (sources st')
       /\ (forall j s, has_score (body j s) = true
                       /\ url (body j s) = url s
                       /\ content (body j s) = content s
                       /\ source_type (body j s) = source_type s
                       /\ score_in_unit (body j s)).
Proof.
  destruct (nil_or_not (sources st)) as [Hsrc|Hsrc].
  - unfold evaluator_agent. rewrite Hsrc. intros [= <- _]. left. auto.
  - rewrite (evaluator_agent_cases env st w Hsrc). cbn zeta.
    destruct (split_scored 0 (sources st)).2 as [|item items] eqn:Hts.
    + intros [= <- _]. right. exists (fun _ s => mark_failed [] s).
      cbn [sources set_sources]. split.
      * unfold kept_after. apply submseteq_inserts_r. reflexivity.
      * split; [reflexivity|]. intros j s. repeat (split; [reflexivity|]).
        intros q [= <-]. split; vm_compute; discriminate.
    + destruct (generate_text env _ w) as [[raw|e] w1]; [|discriminate].
      destruct (parse_scores env raw) as [msg|scores]; intros [= <- _];
        right; cbn [sources set_sources].
      * exists (fun _ s => mark_failed msg s). split; [reflexivity|].
        split; [reflexivity|]. intros j s. repeat (split; [reflexivity|]).
        intros q [= <-]. split; vm_compute; discriminate.
      * exists (mark_scored (build_score_map env (as_list scores) ∅)).
        split; [apply filter_or_top3_submseteq|]. split; [reflexivity|].
        intros j s. repeat (split; [reflexivity|]).
        intros q. unfold mark_scored. cbn [score]. intros [= <-].
        destruct (build_score_map env (as_list scores) ∅ !! Z.of_nat j)
          as [v|] eqn:Hv; cbn [default].
        -- rewrite build_score_map_lookup, lookup_empty in Hv.
           destruct (last_entry env (as_list scores) (Z.of_nat j)) eqn:Hl;
             [|discriminate].
           injection Hv as ->.
           destruct (last_entry_origin env _ _ _ Hl) as (? & x & _ & _ & _ & ->).
           apply clamp_range.
        -- split; vm_compute; discriminate.
Qed.

Lemma evaluator_agent_scored_after st w st' w' :
  evaluator_agent env st w = (Ok st', w') ->
  forallb has_score (sources st') = true.
Proof.
  intros Hrun. apply has_score_forall.
  destruct (evaluator_agent_result_kept _ _ _ _ Hrun)
    as [[Hnil ->]|(body & Hsub & _ & Hbody)].
  - rewrite Hnil. constructor.
  - eapply submseteq_forall; [exact Hsub|].
    apply kept_after_forall; [auto|]. intros j s _ _. apply Hbody.
Qed.

(** X11. After a call that returns, every source carries a score; so a
    second call right after it finds nothing to score and is a no-op,
    whatever the model would have answered. *)
Theorem evaluator_agent_idempotent (st : ResearchState) (w : world) :
  forall st' w',
    evaluator_agent env st w = (Ok st', w') ->
    forallb has_score (sources st') = true
    /\ forall w2, evaluator_agent env st' w2 = (Ok st', w2).
Proof.
  intros st' w' Hrun.
  pose proof (evaluator_agent_scored_after _ _ _ _ Hrun) as Hall.
  split; [exact Hall|]. intros w2. apply evaluator_agent_all_scored, Hall.
Qed.

Lemma kept_after_origin body srcs :
  (forall j s, url (body j s) = url s /\ content (body j s) = content s
               /\ source_type (body j s) = source_type s) ->
  forall i,
    exists l, already_scored srcs ++ newly_scored body i srcs ≡ₚ l
              /\ Forall2 scored_from srcs l.
Proof.
  intros Hbody. induction srcs as [|s rest IH]; intros i.
  - exists []. split; [reflexivity|constructor].
  - destruct (IH (S i)) as (l & Hperm & Hall).
    cbn [already_scored List.filter newly_scored].
    fold (already_scored rest).
    destruct (has_score s) eqn:E.
    + exists (s :: l). split; [cbn; constructor; exact Hperm|].
      constructor; [|exact Hall]. repeat split; reflexivity.
    + exists (body i s :: l). split.
      * rewrite <- Hperm. symmetry. apply Permutation_middle.
      * constructor; [|exact Hall]. destruct (Hbody i s) as (? & ? & ?).
        repeat (split; [assumption|]). congruence.
Qed.

Lemma scored_from_urls srcs l :
  Forall2 scored_from srcs l -> url <$> l = url <$> srcs.
Proof.
  induction 1 as [|s s' srcs l (Hu & _) _ IH]; [reflexivity|].
  cbn. rewrite Hu, IH. reflexivity.
Qed.

Lemma submseteq_NoDup {A} (l k : list A) : l ⊆+ k -> NoDup k -> NoDup l.
Proof.
  intros Hsub Hnd. apply submseteq_Permutation in Hsub.
  destruct Hsub as [k' Hk]. rewrite Hk in Hnd.
  apply NoDup_app in Hnd. tauto.
Qed.

Lemma evaluator_agent_traces st w st' w' :
  evaluator_agent env st w = (Ok st', w') ->
  exists l, sources st' ⊆+ l /\ Forall2 scored_from (sources st) l.
Proof.
  intros Hrun.
  destruct (evaluator_agent_result_kept _ _ _ _ Hrun)
    as [[_ ->]|(body & Hsub & _ & Hbody)].
  - exists (sources st). split; [reflexivity|].
    apply Forall2_same_length_lookup_2; [reflexivity|].
    intros i s s' H1 H2. rewrite H1 in H2. injection H2 as <-.
    repeat split; reflexivity.
  - destruct (kept_after_origin body (sources st)
                ltac:(intros j s; destruct (Hbody j s); tauto) 0)
      as (l & Hperm & Hall).
    exists l. split; [|exact Hall].
    etransitivity; [exact Hsub|]. apply Permutation_submseteq, Hperm.
Qed.

Lemma evaluator_agent_urls_sub st w st' w' :
  evaluator_agent env st w = (Ok st', w') ->
  (url <$> sources st') ⊆+ (url <$> sources st).
Proof.
  intros Hrun. destruct (evaluator_agent_traces _ _ _ _ Hrun) as (l & Hsub & Hall).
  rewrite <- (scored_from_urls _ _ Hall). apply fmap_submseteq, Hsub.
Qed.

Lemma evaluator_agent_keeps_unit st w st' w' :
  Forall score_in_unit (sources st) ->
  evaluator_agent env st w = (Ok st', w') ->
  Forall score_in_unit (sources st').
Proof.
  intros Hunit Hrun.
  destruct (evaluator_agent_result_kept _ _ _ _ Hrun)
    as [[_ ->]|(body & Hsub & _ & Hbody)]; [exact Hunit|].
  eapply submseteq_forall; [exact Hsub|].
  apply kept_after_forall.
  - intros s Hs _. rewrite Forall_forall in Hunit. apply Hunit, Hs.
  - intros j s _ _. apply Hbody.
Qed.

(** X12. The Evaluator only rescores and drops: every source it returns
    is one of the sources it was given, with the same url, content and
    tag, and unchanged altogether if it already had a score.  No source
    is added or duplicated, so the list does not grow and pairwise
    distinct urls stay pairwise distinct. *)
Theorem evaluator_agent_sources_origin (st : ResearchState) (w : world) :
  forall st' w',
    evaluator_agent env st w = (Ok st', w') ->
    Forall (fun s' => exists s, s ∈ sources st /\ scored_from s s')
           (sources st')
    /\ (url <$> sources st') ⊆+ (url <$> sources st)
    /\ length (sources st') <= length (sources st)
    /\ (NoDup (url <$> sources st) -> NoDup (url <$> sources st')).
Proof.
  intros st' w' Hrun.
  destruct (evaluator_agent_traces _ _ _ _ Hrun) as (l & Hsub & Hall).
  pose proof (evaluator_agent_urls_sub _ _ _ _ Hrun) as Hurls.
  split.
  - eapply submseteq_forall; [exact Hsub|].
    rewrite Forall_forall. intros s' Hs'.
    apply list_elem_of_lookup in Hs'. destruct Hs' as [i Hi].
    destruct (Forall2_lookup_r _ _ _ _ _ Hall Hi) as (s & Hs & Hrel).
    exists s. split; [eapply list_elem_of_lookup_2; exact Hs|exact Hrel].
  - split; [exact Hurls|]. split.
    + apply submseteq_length in Hurls. rewrite !length_fmap in Hurls.
      exact Hurls.
    + apply submseteq_NoDup, Hurls.
Qed.

(** X13. Scores stay in range: if every score present before the call
    lies in [0, 1], every source returned has a score in [0, 1] (a new
    score is a clamped one or the default 0.3). *)
Theorem evaluator_agent_scores_in_unit (st : ResearchState) (w : world) :
  Forall score_in_unit (sources st) ->
  forall st' w',
    evaluator_agent env st w = (Ok st', w') ->
    Forall score_in_unit (sources st').
Proof.
  intros Hunit st' w' Hrun.
  eapply evaluator_agent_keeps_unit; eassumption.
Qed.

(** X14. The fallback of the final filter: when no kept source reaches
    0.6, exactly [min(3, n)] of the [n] kept sources are returned, each
    scored below 0.6, and none of the sources left out has a higher score
    than a source returned. *)
Theorem filter_or_top3_fallback (kept : list source) :
  List.filter credible kept = [] ->
  length (filter_or_top3 kept) = Nat.min 3 (length kept)
  /\ Forall (fun s => (score_or_zero s < threshold)%Q) (filter_or_top3 kept)
  /\ exists dropped,
       filter_or_top3 kept ++ dropped ≡ₚ kept
       /\ forall a b, a ∈ filter_or_top3 kept -> b ∈ dropped ->
                      (score_or_zero b <= score_or_zero a)%Q.
Proof.
  intros Hnone. unfold filter_or_top3. rewrite Hnone.
  pose proof (sorted_desc_perm kept) as Hperm.
  split; [rewrite length_take, (Permutation_length Hperm); reflexivity|].
  split.
  - eapply submseteq_forall;
      [etransitivity; [apply submseteq_take|apply Permutation_submseteq, Hperm]|].
    rewrite Forall_forall. intros s Hs.
    destruct (credible s) eqn:E.
    + exfalso. assert (Hin : In s (List.filter credible kept)).
      { apply filter_In. split; [apply list_elem_of_In, Hs|exact E]. }
      rewrite Hnone in Hin. exact Hin.
    + unfold credible in E. apply Qnot_le_lt. intros Hle.
      apply Qle_bool_iff in Hle. congruence.
  - exists (drop 3 (sorted_desc kept)). rewrite take_drop.
    split; [exact Hperm|]. intros a b Ha Hb.
    pose proof (sorted_desc_sorted kept) as Hsorted.
    rewrite <- (take_drop 3 (sorted_desc kept)) in Hsorted.
    exact (StronglySorted_app_1_elem_of _ _ _ _ _ Hsorted Ha Hb).
Qed.

End EvaluatorMore.

Lemma evaluator_agent_idempotent_witness :
  exists st' w',
    evaluator_agent (scoring_env low_scores) four_fresh world0 = (Ok st', w')
    /\ evaluator_agent (scoring_env low_scores) st' w' = (Ok st', w').
Proof.
  destruct (evaluator_agent (scoring_env low_scores) four_fresh world0)
    as [[st'|e] w'] eqn:Hrun; [|vm_compute in Hrun; discriminate].
  exists st', w'. split; [reflexivity|].
  destruct (evaluator_agent_idempotent (scoring_env low_scores) four_fresh
              world0 st' w' Hrun) as [_ H].
  apply H.
Defined.

Lemma evaluator_agent_sources_origin_witness :
  exists st' w',
    evaluator_agent (scoring_env wild_scores) four_fresh world0 = (Ok st', w')
    /\ NoDup (url <$> sources st')
    /\ length (sources st') <= 4.
Proof.
  destruct (evaluator_agent (scoring_env wild_scores) four_fresh world0)
    as [[st'|e] w'] eqn:Hrun; [|vm_compute in Hrun; discriminate].
  exists st', w'. split; [reflexivity|].
  destruct (evaluator_agent_sources_origin (scoring_env wild_scores)
              four_fresh world0 st' w' Hrun) as (_ & _ & Hlen & Hnd).
  split; [|exact Hlen].
  apply Hnd. apply (bool_decide_unpack _). vm_compute. exact I.
Defined.

Lemma evaluator_agent_scores_in_unit_witness :
  exists st' w',
    evaluator_agent (scoring_env wild_scores) one_scored_one_fresh world0
    = (Ok st', w')
    /\ Forall score_in_unit (sources st').
Proof.
  destruct (evaluator_agent (scoring_env wild_scores) one_scored_one_fresh
              world0) as [[st'|e] w'] eqn:Hrun;
    [|vm_compute in Hrun; discriminate].
  exists st', w'. split; [reflexivity|].
  refine (evaluator_agent_scores_in_unit (scoring_env wild_scores)
            one_scored_one_fresh world0 _ st' w' Hrun).
  constructor; [|constructor; [|constructor]].
  - intros q [= <-]. split; vm_compute; discriminate.
  - intros q [=].
Defined.

Lemma filter_or_top3_fallback_witness :
  let kept := [ scored_source "http://a" (2 # 10);
                scored_source "http://b" (5 # 10);
                scored_source "http://c" (1 # 10);
                scored_source "http://d" (5 # 10) ] in
  length (filter_or_top3 kept) = 3
  /\ filter_or_top3 kept
     = [ scored_source "http://b" (5 # 10); scored_source "http://d" (5 # 10);
         scored_source "http://a" (2 # 10) ].
Proof.
  cbn zeta. split; [|vm_compute; reflexivity].
  match goal with
  | |- length (filter_or_top3 ?k) = _ =>
      destruct (filter_or_top3_fallback k) as [-> _];
        [vm_compute; reflexivity|reflexivity]
  end.
Defined.

(** ** The Synthesizer *)

Section SynthesizerMore.
Variable env : Env.

Lemma starts_with_app p t : starts_with p (p ++ t) = true.
Proof.
  induction p as [|c p IH]; [reflexivity|].
  cbn. rewrite N.eqb_refl. exact IH.
Qed.

Lemma starts_with_extend p a b :
  starts_with p a = true -> starts_with p (a ++ b) = true.
Proof.
  revert a. induction p as [|c p IH]; intros a; [reflexivity|].
  destruct a as [|d a]; [discriminate|]. cbn.
  destruct (N.eqb c d); [apply IH|discriminate].
Qed.

Lemma contains_unfold needle hay :
  contains needle hay
  = starts_with needle hay
    || match hay with [] => false | _ :: hay' => contains needle hay' end.
Proof. destruct hay; reflexivity. Qed.

Lemma contains_here needle t : contains needle (needle ++ t) = true.
Proof. rewrite contains_unfold, starts_with_app. reflexivity. Qed.

Lemma contains_app_r needle a b :
  contains needle b = true -> contains needle (a ++ b) = true.
Proof.
  intros H. induction a as [|c a IH]; [exact H|].
  cbn [app]. rewrite contains_unfold, IH. apply orb_true_r.
Qed.

Lemma contains_app_l needle a b :
  contains needle a = true -> contains needle (a ++ b) = true.
Proof.
  induction a as [|c a IH].
  - rewrite contains_unfold, orb_false_r. intros H.
    destruct needle; [|discriminate]. destruct b; reflexivity.
  - rewrite contains_unfold. intros [H|H]%orb_prop.
    + cbn [app]. rewrite contains_unfold.
      change (c :: a ++ b) with ((c :: a) ++ b).
      rewrite (starts_with_extend _ _ b H). reflexivity.
    + cbn [app]. rewrite contains_unfold, (IH H). apply orb_true_r.
Qed.

Lemma contains_join needle sep parts part :
  part ∈ parts -> contains needle part = true ->
  contains needle (join sep parts) = true.
Proof.
  intros Hin Hpart. induction parts as [|p rest IH]; [inversion Hin|].
  apply elem_of_cons in Hin. cbn [join].
  destruct rest as [|q rest'].
  - destruct Hin as [->|Hin]; [exact Hpart|inversion Hin].
  - destruct Hin as [->|Hin].
    + apply contains_app_l, Hpart.
    + apply contains_app_r, contains_app_r, IH, Hin.
Qed.

Lemma contains_refl needle : contains needle needle = true.
Proof.
  rewrite <- (app_nil_r needle) at 2. apply contains_here.
Qed.

Ltac find_in_prompt :=
  repeat first [ apply contains_here
               | apply contains_refl
               | apply contains_app_l; assumption
               | apply contains_app_r ].

(** X15. With no report (or an empty one) and at least one source the
    Synthesizer reads the date, makes one [generate_text] call and
    stores the returned text verbatim as the report; if the call raises,
    so does the Synthesizer.  The prompt of that call contains the topic
    and, for every source, its url and the first 900 characters of its
    content.  An object state keeps all its other fields; a dict state
    is answered by a dict holding only the report. *)
Theorem synthesizer_agent_generates (s : any_state) (w : world) :
  falsy (state_report s) = true ->
  state_sources s <> [] ->
  let today := strftime_now env (count_ev is_time (events w)) in
  let prompt :=
    synthesizer_prompt (state_topic s) today (build_notes (state_sources s)) in
  synthesizer_agent env s w
  = match generate_text env prompt
            (World (last_request_time w) (EvTime :: events w)) with
    | (Ok report_text, w2) => (Ok (with_report s report_text), w2)
    | (Raise e, w2) => (Raise e, w2)
    end
  /\ contains (state_topic s) prompt = true
  /\ (forall src, src ∈ state_sources s ->
        contains (url src) prompt = true
        /\ contains (take 900 (content src)) prompt = true)
  /\ (forall text,
        state_report (with_report s text) = Some text
        /\ match s, with_report s text with
           | AsObject st, AsObject st' =>
               st' = set_report st (Some text)
               /\ sources st' = sources st /\ plan st' = plan st
               /\ current_step st' = current_step st /\ topic st' = topic st
           | AsDict _, AsDict d' => d' = DictState None None (Some text)
           | _, _ => False
           end).
Proof.
  intros Hrep Hsrc. cbn zeta. split; [|split; [|split]].
  - unfold synthesizer_agent. rewrite Hrep. cbn [negb].
    destruct (state_sources s) as [|s0 rest] eqn:E; [contradiction|].
    unfold bind, today, ret. cbn [fst snd].
    destruct (generate_text env _ _) as [[text|e] w2]; reflexivity.
  - unfold synthesizer_prompt. find_in_prompt.
  - intros src Hin.
    assert (Hnote : forall needle,
               contains needle (note_of src) = true ->
               contains needle
                 (synthesizer_prompt (state_topic s)
                    (strftime_now env (count_ev is_time (events w)))
                    (build_notes (state_sources s))) = true).
    { intros needle Hn.
      assert (Hnotes : contains needle (build_notes (state_sources s)) = true).
      { unfold build_notes. eapply contains_join; [|exact Hn].
        apply list_elem_of_fmap_2, Hin. }
      unfold synthesizer_prompt. find_in_prompt. }
    split; apply Hnote; unfold note_of; find_in_prompt.
  - intros text. destruct s as [d|st]; cbn; auto 10.
Qed.

End SynthesizerMore.

Lemma synthesizer_agent_generates_witness :
  let st := State (lit "tides") [lit "q"] 1
              [scored_source "http://a" (9 # 10)] None None None in
  exists w',
    synthesizer_agent garbled_env (AsObject st) world0
    = (Ok (AsObject (set_report st (Some (lit "Sure! Here you go")))), w')
    /\ count_ev is_api (events w') = 1.
Proof.
  cbn zeta.
  match goal with
  | |- context [synthesizer_agent ?e (AsObject ?st) ?w] =>
      destruct (synthesizer_agent_generates e (AsObject st) w)
        as (-> & _); [reflexivity|discriminate|]
  end.
  eexists. split; vm_compute; reflexivity.
Defined.

(** ** The whole run *)

Section GraphMore.
Variable env : Env.

Lemma search_agent_frame st w st' w' :
  search_agent env st w = (Ok st', w') ->
  topic st' = topic st /\ plan st' = plan st /\ report st' = report st
  /\ exists added, sources st' = sources st ++ added
                   /\ Forall (fun s => score s = None) added.
Proof.
  intros Hrun.
  destruct (search_agent_inv env _ _ _ _ Hrun)
    as [(_ & -> & _)|(_ & query & resp & _ & _ & ->)].
  - repeat (split; [reflexivity|]). exists []. rewrite app_nil_r. auto.
  - repeat (split; [reflexivity|]).
    cbn [sources set_current_step set_sources].
    destruct (add_results_detail (results_of resp) (seen_urls (sources st))
                (sources st)) as (added & Heq & Hall & _).
    exists added. split; [exact Heq|].
    eapply Forall_impl; [exact Hall|]. cbn beta. tauto.
Qed.

Lemma evaluator_agent_frame st w st' w' :
  evaluator_agent env st w = (Ok st', w') ->
  topic st' = topic st /\ plan st' = plan st /\ report st' = report st.
Proof.
  intros Hrun.
  destruct (evaluator_agent_result_kept env _ _ _ _ Hrun)
    as [[_ ->]|(body & _ & -> & _)]; auto.
Qed.

Lemma planner_agent_frame st w st' w' :
  planner_agent env st w = (Ok st', w') ->
  topic st' = topic st /\ sources st' = sources st /\ report st' = report st.
Proof.
  unfold planner_agent, try_except, bind.
  destruct (generate_text env _ w) as [[output|e] w1]; unfold ret;
    intros [= <- _]; auto.
Qed.

Lemma set_report_same st : set_report st (report st) = st.
Proof. destruct st; reflexivity. Qed.

(** What the Synthesizer does to an object state. *)
Lemma synthesizer_agent_object st w r w' :
  synthesizer_agent env (AsObject st) w = (Ok r, w') ->
  exists rep,
    merge_update st r = set_report st rep
    /\ (falsy (report st) = true ->
        (sources st = [] /\ rep = Some no_sources_msg)
        \/ (sources st <> []
            /\ exists prompt w1 text,
                 generate_text env prompt w1 = (Ok text, w')
                 /\ rep = Some text))
    /\ (forall text, report st = Some text -> text <> [] -> rep = Some text).
Proof.
  unfold synthesizer_agent. cbn [state_report state_sources].
  destruct (falsy (report st)) eqn:Hf; cbn [negb].
  - assert (Hkeep : forall rep text,
               report st = Some text -> text <> [] -> rep = Some text).
    { intros rep text Hrep Hne. rewrite Hrep in Hf.
      destruct text; [contradiction|discriminate]. }
    destruct (sources st) as [|s0 rest] eqn:Hsrc.
    + intros [= <- _]. exists (Some no_sources_msg).
      split; [reflexivity|]. split; [auto|]. intros; eapply Hkeep; eauto.
    + unfold bind, today, ret. cbn [fst snd].
      destruct (generate_text env _ _) as [[text|e] w1] eqn:Hgen;
        [|discriminate].
      intros [= <- <-]. exists (Some text). split; [reflexivity|].
      split; [|intros; eapply Hkeep; eauto].
      intros _. right. split; [discriminate|]. eauto.
  - intros [= <- _]. exists (report st). cbn [merge_update].
    split; [symmetry; apply set_report_same|]. split; [discriminate|].
    intros text Hrep _. exact Hrep.
Qed.

(** A property kept by the Searcher and by the Evaluator holds of the
    state that reaches the Synthesizer, which then has every source
    scored and the plan exhausted. *)
Lemma run_graph_invariant (I : ResearchState -> Prop) :
  (forall st w st' w',
     I st -> search_agent env st w = (Ok st', w') -> I st') ->
  (forall st w st' w',
     I st -> evaluator_agent env st w = (Ok st', w') -> I st') ->
  forall limit n st w st' w',
    n = NSearch \/ n = NEvaluate ->
    I st ->
    run_graph env limit n st w = (Ok (Some st'), w') ->
    exists st2 w2 r,
      I st2 /\ forallb has_score (sources st2) = true
      /\ length (plan st2) <= current_step st2
      /\ synthesizer_agent env (AsObject st2) w2 = (Ok r, w')
      /\ st' = merge_update st2 r.
Proof.
  intros Hsearch Heval.
  induction limit as [|limit IH]; intros n st w st' w' Hn HI Hrun;
    [discriminate|].
  rewrite run_graph_step in Hrun. destruct Hn as [-> | ->].
  - rewrite run_node_search in Hrun.
    destruct (search_agent env st _) as [[st1|e] w1] eqn:H1; [|discriminate].
    cbn [next_node] in Hrun.
    eapply (IH NEvaluate); [right; reflexivity| |exact Hrun].
    eapply Hsearch; eassumption.
  - rewrite run_node_evaluate in Hrun.
    destruct (evaluator_agent env st _) as [[st2|e] w2] eqn:H2; [|discriminate].
    cbn [next_node] in Hrun. unfold should_continue in Hrun.
    destruct (current_step st2 <? length (plan st2)) eqn:Hmore.
    + eapply (IH NSearch); [left; reflexivity| |exact Hrun].
      eapply Heval; eassumption.
    + apply Nat.ltb_ge in Hmore.
      destruct limit as [|limit]; [discriminate|].
      rewrite run_graph_step, run_node_synthesize in Hrun.
      destruct (synthesizer_agent env (AsObject st2) _) as [[r|e] w3] eqn:H3;
        [|discriminate].
      cbn [next_node] in Hrun. injection Hrun as <- <-.
      exists st2, (entered NSynthesize w2), r.
      split; [eapply Heval; eassumption|].
      split; [eapply evaluator_agent_scored_after; exact H2|].
      split; [exact Hmore|]. split; [exact H3|reflexivity].
Qed.

(** X16. A run of the graph, as main.py starts it with the recursion
    limit of 30, never stops at that limit.  When it returns, the topic
    is the one given, the plan has between one and four queries and is
    exhausted, the search node was entered once per query and the
    synthesize node once, every source carries a score, urls that were
    pairwise distinct at the start are pairwise distinct at the end and
    scores that were in [0, 1] still are.  For a state that started
    without a report (or with an empty one) the report at the end is the
    diagnostic message if no source is left, and otherwise whatever the
    Synthesizer's generation call, the last effect of the run, returned;
    a state that started with a non-empty report keeps it, whatever the
    run collected. *)
Theorem research_graph_invoke_result (st : ResearchState) (w : world) :
  let rw := research_graph_invoke env st w in
  rw.1 <> Ok None
  /\ forall st',
       rw.1 = Ok (Some st') ->
       topic st' = topic st
       /\ 0 < length (plan st') <= 4
       /\ current_step st' = length (plan st')
       /\ count_ev (is_node NSearch) (events rw.2)
          = count_ev (is_node NSearch) (events w) + length (plan st')
       /\ count_ev (is_node NSynthesize) (events rw.2)
          = count_ev (is_node NSynthesize) (events w) + 1
       /\ forallb has_score (sources st') = true
       /\ (NoDup (url <$> sources st) -> NoDup (url <$> sources st'))
       /\ (Forall score_in_unit (sources st) ->
           Forall score_in_unit (sources st'))
       /\ (falsy (report st) = true ->
           (sources st' = [] /\ report st' = Some no_sources_msg)
           \/ (sources st' <> []
               /\ exists prompt w1 text,
                    generate_text env prompt w1 = (Ok text, rw.2)
                    /\ report st' = Some text))
       /\ (forall text, report st = Some text -> text <> [] ->
                        report st' = Some text).
Proof.
  cbn zeta. unfold research_graph_invoke. rewrite run_graph_step.
  change (run_node env NPlanner st w)
    with (planner_agent env st (entered NPlanner w)).
  destruct (planner_agent_returns env st (entered NPlanner w))
    as (st0 & w0 & Hplan & Hlen & Hcur & Hq).
  destruct (planner_agent_frame _ _ _ _ Hplan) as (Ht0 & Hs0 & Hr0).
  rewrite Hplan. cbn [next_node].
  destruct (run_graph_search_loop env (length (plan st0)) st0 w0 29)
    as [_ Hres]; try lia.
  cbn zeta in Hres.
  destruct (run_graph env 29 NSearch st0 w0) as [[[st'|]|e] w'] eqn:Hrun;
    cbn [fst snd] in *; [|contradiction|split; [discriminate|intros ? [=]]].
  split; [discriminate|]. intros st'' [= <-].
  destruct Hres as (HS & HY & Hp & Hc).
  set (I := fun s : ResearchState =>
              topic s = topic st /\ report s = report st
              /\ (NoDup (url <$> sources st) -> NoDup (url <$> sources s))
              /\ (Forall score_in_unit (sources st) ->
                  Forall score_in_unit (sources s))).
  destruct (run_graph_invariant I) with (limit := 29) (n := NSearch)
    (st := st0) (w := w0) (st' := st') (w' := w')
    as (st2 & w2 & r & (Ht2 & Hr2 & Hnd2 & Hu2) & Hall & _ & Hsyn & ->).
  - intros s1 w1 s1' w1' (H1 & H2 & H3 & H4) Hrun1.
    destruct (search_agent_frame _ _ _ _ Hrun1)
      as (Ht & _ & Hr & added & Hsrc & Hnone).
    split; [congruence|]. split; [congruence|]. split.
    + intros Hnd. specialize (H3 Hnd).
      destruct (search_agent_keeps_unique env _ _ _ _ H3 Hrun1)
        as (? & _ & H & _). exact H.
    + intros Hu. rewrite Hsrc. apply Forall_app. split; [auto|].
      eapply Forall_impl; [exact Hnone|]. cbn beta.
      intros s Hs q Hq'. congruence.
  - intros s1 w1 s1' w1' (H1 & H2 & H3 & H4) Hrun1.
    destruct (evaluator_agent_frame _ _ _ _ Hrun1) as (Ht & _ & Hr).
    split; [congruence|]. split; [congruence|]. split.
    + intros Hnd. eapply submseteq_NoDup;
        [eapply evaluator_agent_urls_sub; exact Hrun1|auto].
    + intros Hu. eapply evaluator_agent_keeps_unit; [|exact Hrun1]. auto.
  - left. reflexivity.
  - unfold I. rewrite Ht0, Hr0, Hs0. auto.
  - exact Hrun.
  - destruct (synthesizer_agent_object _ _ _ _ Hsyn)
      as (rep & Hmerge & Hnew & Hkeep).
    rewrite Hmerge in *. cbn [topic plan current_step sources report set_report]
      in *.
    rewrite Hq, count_entered in HS, HY. cbn [is_node] in HS, HY.
    rewrite Hp, Hc. rewrite Hr2 in Hnew, Hkeep.
    split; [exact Ht2|]. split; [lia|]. split; [reflexivity|].
    split; [lia|]. split; [lia|]. split; [exact Hall|].
    split; [exact Hnd2|]. split; [exact Hu2|]. split; [exact Hnew|exact Hkeep].
Qed.

End GraphMore.

(** ** The research endpoint *)

Section MainMore.
Variable env : Env.
Variable url_re_sub : (pystr -> pystr) -> pystr -> pystr.
Variable recursion_error_msg : pystr.

Lemma research_accepts topic w :
  3 <= length (py_strip env topic) ->
  length topic <= 500 ->
  research env url_re_sub recursion_error_msg topic w =
  match research_graph_invoke env (initial_state topic) w with
  | (Ok (Some result), w') =>
      (Ok (Success (linkify url_re_sub (default [] (report result)))
             (sources result) topic), w')
  | (Ok None, w') =>
      (Ok (runtime_error_response env recursion_error_msg), w')
  | (Raise (RuntimeError error_msg), w') =>
      (Ok (runtime_error_response env error_msg), w')
  | (Raise _, w') => (Ok unexpected_error_response, w')
  end.
Proof.
  intros Hmin Hmax. unfold research.
  destruct topic as [|c topic].
  - cbv in Hmin. lia.
  - replace (length (py_strip env (c :: topic)) <? 3) with false
      by (symmetry; apply Nat.ltb_ge; exact Hmin).
    replace (500 <? length (c :: topic)) with false
      by (symmetry; apply Nat.ltb_ge; exact Hmax).
    reflexivity.
Qed.

(** X17. The endpoint validates before it runs anything, the length
    after stripping first: a topic with fewer than 3 characters once
    stripped (the empty topic and any topic of blanks included, however
    long) is answered 400 "Topic must be at least 3 characters long"; a
    topic that passes this test and has more than 500 characters is
    answered 400 "Topic must be less than 500 characters"; neither has
    any effect.  A topic of exactly 500 characters is accepted.  An
    accepted topic is never answered 400, and whatever the run does the
    endpoint returns an answer rather than raise. *)
Theorem research_validation (topic : pystr) (w : world) :
  let rw := research env url_re_sub recursion_error_msg topic w in
  (length (py_strip env topic) < 3 ->
   rw = (Ok (HTTPError 400
               (DetailText (lit "Topic must be at least 3 characters long"))),
         w))
  /\ (3 <= length (py_strip env topic) -> 500 < length topic ->
      rw = (Ok (HTTPError 400
                  (DetailText (lit "Topic must be less than 500 characters"))),
            w))
  /\ (3 <= length (py_strip env topic) -> length topic <= 500 ->
      exists response,
        rw.1 = Ok response
        /\ forall detail, response <> HTTPError 400 detail).
Proof.
  cbn zeta. split; [|split].
  - intros Hshort. unfold research.
    destruct topic as [|c topic]; [reflexivity|]. cbn [orb].
    replace (length (py_strip env (c :: topic)) <? 3) with true
      by (symmetry; apply Nat.ltb_lt; exact Hshort).
    reflexivity.
  - intros Hmin Hlong. unfold research.
    destruct topic as [|c topic]; [cbv in Hmin; lia|]. cbn [orb].
    replace (length (py_strip env (c :: topic)) <? 3) with false
      by (symmetry; apply Nat.ltb_ge; exact Hmin).
    replace (500 <? length (c :: topic)) with true
      by (symmetry; apply Nat.ltb_lt; exact Hlong).
    reflexivity.
  - intros Hmin Hmax. rewrite (research_accepts topic w Hmin Hmax).
    assert (Hrt : forall msg detail,
               runtime_error_response env msg <> HTTPError 400 detail).
    { intros msg detail. unfold runtime_error_response.
      destruct (mentions_rate_limit env msg); [discriminate|].
      destruct (contains _ msg); discriminate. }
    destruct (research_graph_invoke env (initial_state topic) w)
      as [[[result|]|e] w']; cbn [fst].
    + eexists. split; [reflexivity|discriminate].
    + eexists. split; [reflexivity|apply Hrt].
    + destruct e; (eexists; split; [reflexivity|]);
        first [apply Hrt|discriminate].
Qed.


End MainMore.

Section QuotaRun.
Variable env : Env.
Variable url_re_sub : (pystr -> pystr) -> pystr -> pystr.
Variable recursion_error_msg : pystr.
Hypothesis Hquota : forall i prompt,
    rate_limited env (gemini_api env i prompt) = true.
Hypothesis Hkey : falsy (tavily_api_key env) = false.
Hypothesis Hsearch : forall i query,
    exists resp, tavily_search env i query = Ok resp.

Lemma generate_text_exhausted prompt w :
  (generate_text env prompt w).1 = Raise (RuntimeError rate_limit_msg).
Proof.
  unfold generate_text. rewrite generate_text_retries_unfold.
  destruct (attempt_loop_exhausted env prompt 3 2 0 3%Q (throttle env w).2)
    as (Hr & _); [reflexivity|intros; apply Hquota|exact Hr].
Qed.

Lemma search_agent_returns st w :
  exists st' w', search_agent env st w = (Ok st', w').
Proof.
  unfold search_agent.
  destruct (length (plan st) <=? current_step st) eqn:Hguard; [eauto|].
  rewrite Hkey. apply Nat.leb_gt in Hguard.
  destruct (lookup_lt_is_Some_2 (plan st) (current_step st) Hguard)
    as [query ->].
  unfold bind, client_search, ret.
  destruct (Hsearch (count_ev is_search (events w)) query) as [resp ->].
  eauto.
Qed.

(** With the quota exhausted a run that starts without sources or report
    ends in the rate-limit error as soon as a search has brought a
    source, and otherwise in the diagnostic report. *)
Lemma run_graph_exhausted limit :
  forall n st w,
    report st = None ->
    (n = NSearch /\ sources st = [])
    \/ (n = NEvaluate /\ Forall (fun s => score s = None) (sources st)) ->
    let r := (run_graph env limit n st w).1 in
    r = Raise (RuntimeError rate_limit_msg)
    \/ r = Ok None
    \/ exists st', r = Ok (Some st') /\ sources st' = []
                   /\ report st' = Some no_sources_msg.
Proof.
  induction limit as [|limit IH]; intros n st w Hrep Hn; cbn zeta;
    [right; left; reflexivity|].
  rewrite run_graph_step. destruct Hn as [[-> Hnil]|[-> Hnone]].
  - rewrite run_node_search.
    destruct (search_agent_returns st (entered NSearch w)) as (st1 & w1 & H1).
    rewrite H1. cbn [next_node].
    destruct (search_agent_frame env _ _ _ _ H1)
      as (_ & _ & Hr1 & added & Hsrc & Hadded).
    apply IH; [congruence|]. right. split; [reflexivity|].
    rewrite Hsrc, Hnil. exact Hadded.
  - rewrite run_node_evaluate.
    destruct (sources st) as [|s0 rest] eqn:Hsrc.
    + unfold evaluator_agent. rewrite Hsrc. cbn [ret next_node].
      unfold should_continue.
      destruct (current_step st <? length (plan st)).
      * apply IH; [exact Hrep|]. left. auto.
      * destruct limit as [|limit]; [right; left; reflexivity|].
        rewrite run_graph_step, run_node_synthesize.
        unfold synthesizer_agent. cbn [state_report state_sources].
        rewrite Hrep, Hsrc. cbn [falsy negb ret next_node fst].
        right. right. eexists. split; [reflexivity|].
        cbn [merge_update with_report sources report set_report].
        auto.
    + assert (Hsome : forallb has_score (sources st) = false).
      { rewrite Hsrc. inversion Hnone as [|? ? Hs0 _]; subst.
        cbn [forallb]. unfold has_score. rewrite Hs0. reflexivity. }
      assert (Hne : sources st <> []) by (rewrite Hsrc; discriminate).
      rewrite (evaluator_agent_cases env st _ Hne). cbn zeta.
      pose proof (split_scored_none 0 _ Hsome) as Hts.
      destruct (split_scored 0 (sources st)).2 as [|item items];
        [contradiction|].
      match goal with
      | |- context [generate_text env ?p ?w1] =>
          pose proof (generate_text_exhausted p w1) as Hgen;
          destruct (generate_text env p w1) as [r0 w2]
      end.
      cbn [fst] in Hgen. subst r0. left. reflexivity.
Qed.

(** X19. When the Gemini quota is exhausted for every call, a Tavily key
    is set and the searches return, an accepted request has two possible
    answers.  The Planner absorbs its own failure and plans with the
    fallback queries; then either some search brings a source, the
    Evaluator's call fails and the answer is 429 "Rate limit exceeded"
    with [retry_after] 60, or no search brings anything and the answer
    is a success whose report is the diagnostic message and whose source
    list is empty. *)
Theorem research_exhausted_quota (topic : pystr) (w : world) :
  lower_on_ascii env ->
  3 <= length (py_strip env topic) ->
  length topic <= 500 ->
  let r := (research env url_re_sub recursion_error_msg topic w).1 in
  r = Ok rate_limit_response
  \/ r = Ok (Success (linkify url_re_sub no_sources_msg) [] topic).
Proof.
  intros Hlower Hmin Hmax. cbn zeta.
  rewrite (research_accepts env url_re_sub recursion_error_msg topic w
             Hmin Hmax).
  pose proof (research_graph_invoke_within_limit env (initial_state topic) w)
    as [Hlimit _]. cbn zeta in Hlimit.
  unfold research_graph_invoke in *. rewrite run_graph_step in *.
  change (run_node env NPlanner (initial_state topic) w)
    with (planner_agent env (initial_state topic) (entered NPlanner w)) in *.
  destruct (planner_agent env (initial_state topic) (entered NPlanner w))
    as [[st0|e0] w0] eqn:Hplan;
    [|destruct (planner_agent_returns env (initial_state topic)
                  (entered NPlanner w)) as (? & ? & Hok & _); congruence].
  destruct (planner_agent_frame env _ _ _ _ Hplan) as (_ & Hs0 & Hr0).
  cbn [next_node] in *.
  pose proof (run_graph_exhausted 29 NSearch st0 w0 Hr0
                (or_introl (conj eq_refl Hs0))) as Hrun.
  cbn zeta in Hrun.
  destruct (run_graph env 29 NSearch st0 w0) as [[[st'|]|e] w'];
    cbn [fst] in *.
  - destruct Hrun as [Hrun|[Hrun|(st'' & [= <-] & Hsrc & Hrep)]];
      try discriminate.
    right. rewrite Hsrc, Hrep. reflexivity.
  - contradiction.
  - destruct Hrun as [[= ->]|[Hrun|(st'' & Hrun & _)]]; try discriminate.
    left. unfold runtime_error_response.
    rewrite (rate_limit_msg_mentions env Hlower). reflexivity.
Qed.

End QuotaRun.

Lemma research_validation_witness :
  research garbled_env no_links [] (lit "ab ") world0
  = (Ok (HTTPError 400
           (DetailText (lit "Topic must be at least 3 characters long"))),
     world0).
Proof.
  destruct (research_validation garbled_env no_links [] (lit "ab ") world0)
    as [H _].
  apply H. vm_compute. lia.
Defined.


Lemma research_exhausted_quota_witness :
  let with_hits := lower_env quota_error overlapping_hits (inl []) in
  let without_hits := lower_env quota_error [] (inl []) in
  (research with_hits no_links [] (lit "tides") world0).1
  = Ok rate_limit_response
  /\ (research without_hits no_links [] (lit "tides") world0).1
     = Ok (Success no_sources_msg [] (lit "tides")).
Proof.
  cbn zeta. split.
  - destruct (research_exhausted_quota
                (lower_env quota_error overlapping_hits (inl []))
                no_links [] ltac:(intros; reflexivity) ltac:(reflexivity)
                ltac:(intros; eexists; reflexivity)
                (lit "tides") world0 ltac:(intros s _; reflexivity)
                ltac:(vm_compute; lia) ltac:(vm_compute; lia)) as [H|H];
      [exact H|].
    vm_compute in H. discriminate.
  - vm_compute. reflexivity.
Defined.

(** ** The clock of the generation client, and the labels of the UI *)

Section ClockMore.
Variable env : Env.

Lemma attempt_loop_ends_attempted prompt n m :
  forall a delay w,
    a + S m = n ->
    exists wk, (attempt_loop env prompt n (seq a (S m)) delay w).2
               = attempted env prompt wk.
Proof.
  induction m as [|m IH]; intros a delay w Hn;
    change (seq a (S ?k)) with (a :: seq (S a) k);
    rewrite attempt_loop_cons;
    (destruct (gemini_api env _ prompt) as [text|e]; [eauto|]);
    (destruct (rate_limited env (ApiRaise e)); [|eauto]).
  - replace (a <? n - 1) with false by (symmetry; apply Nat.ltb_ge; lia).
    eauto.
  - destruct (a <? n - 1); [|eauto]. apply IH. lia.
Qed.

(** X20. Whenever [generate_text] makes at least one attempt
    ([max_retries >= 1]), the call ends right after an API attempt: the
    last two effects are a clock reading and the API call, no sleep
    follows, and [_last_request_time] holds that reading, the start of
    the last attempt. *)
Theorem generate_text_last_request_time (prompt : pystr) (n : nat) (w : world) :
  0 < n ->
  let rw := generate_text_retries env prompt n w in
  exists h,
    events rw.2 = EvApi prompt :: EvTime :: h
    /\ last_request_time rw.2 = time_time env (count_ev is_time h).
Proof.
  intros Hn. cbn zeta. rewrite generate_text_retries_unfold.
  destruct n as [|m]; [lia|].
  destruct (attempt_loop_ends_attempted prompt (S m) m 0 3%Q
              (throttle env w).2 eq_refl) as [wk ->].
  exists (events wk). split; reflexivity.
Qed.

End ClockMore.

(** X21. The labels of the sources tab agree with the Evaluator's
    filter: a source that passed the 0.6 filter is never shown as "Low
    Quality", a source with the default score 0.3 or with no score
    always is, and "High Quality" means a score of at least 0.75. *)
Theorem score_label_matches_filter (s : source) :
  (credible s = true -> score_label s <> LowQuality)
  /\ (score s = None \/ score s = Some default_score ->
      score_label s = LowQuality /\ credible s = false)
  /\ (score_label s = HighQuality <-> (75 # 100 <= score_or_zero s)%Q).
Proof.
  unfold score_label, credible, threshold. split; [|split].
  - intros Hc. apply Qle_bool_iff in Hc.
    destruct (Qle_bool (75 # 100) (score_or_zero s)); [discriminate|].
    destruct (Qle_bool (5 # 10) (score_or_zero s)) eqn:E; [discriminate|].
    exfalso. assert (Hle : (5 # 10 <= score_or_zero s)%Q) by lra.
    apply Qle_bool_iff in Hle. congruence.
  - unfold score_or_zero. intros [-> | ->]; split; reflexivity.
  - destruct (Qle_bool (75 # 100) (score_or_zero s)) eqn:E.
    + apply Qle_bool_iff in E. tauto.
    + split; [destruct (Qle_bool (5 # 10) _); discriminate|].
      intros Hle. apply Qle_bool_iff in Hle. congruence.
Qed.

Lemma generate_text_last_request_time_witness :
  let rw := generate_text (flaky_env 1) (lit "q") world0 in
  exists h,
    events rw.2 = EvApi (lit "q") :: EvTime :: h
    /\ last_request_time rw.2
       = time_time (flaky_env 1) (count_ev is_time h).
Proof.
  apply (generate_text_last_request_time (flaky_env 1) (lit "q") 3 world0).
  lia.
Defined.

Example generate_text_last_request_time_value :
  let rw := generate_text (flaky_env 1) (lit "q") world0 in
  last_request_time rw.2 = 20%Q
  /\ events rw.2 = [EvApi (lit "q"); EvTime; EvSleep 3%Q; EvApi (lit "q");
                    EvTime; EvSleep 2%Q; EvTime].
Proof. vm_compute. split; reflexivity. Qed.

(** A request served from end to end: the model answers every prompt
    with one line, which becomes the single query of the plan, the
    undecodable scores leave three sources at 0.3, and the line is the
    report. *)
Example research_served :
  let env := fixed_env (ApiText (lit "tidal power")) overlapping_hits
               (inl (lit "Expecting value")) in
  match (research env no_links [] (lit "tides") world0).1 with
  | Ok (Success report srcs topic) =>
      report = lit "tidal power" /\ topic = lit "tides"
      /\ url <$> srcs = [lit "http://a"; lit "http://b"; lit "http://c"]
      /\ score <$> srcs = [Some default_score; Some default_score;
                           Some default_score]
  | _ => False
  end.
Proof. vm_compute. repeat split. Qed.

(** The test on the stripped length comes first: 501 blanks are answered
    with the message about 3 characters; 499 letters between two blanks,
    501 characters in all, with the message about 500. *)
Example research_long_topics :
  (research garbled_env no_links [] (repeat 32%N 501) world0).1
  = Ok (HTTPError 400
          (DetailText (lit "Topic must be at least 3 characters long")))
  /\ (research garbled_env no_links []
        (32%N :: repeat 97%N 499 ++ [32%N]) world0).1
     = Ok (HTTPError 400
             (DetailText (lit "Topic must be less than 500 characters"))).
Proof. split; vm_compute; reflexivity. Qed.
